(** * Denflow AI backend: authentication and lead-job handlers

    A shallow embedding of [main.py] and [schemas.py].  The handlers are
    written in a state-and-exception monad over the process-wide store
    handle [db]; the identifier type of the driver is modelled in
    module [Oid], the persistence helpers of [database.py] in module
    [Db]. *)

From Stdlib Require Import List String Ascii NArith ZArith Bool Arith Lia DecimalString.
Import ListNotations.
Local Open Scope string_scope.

(* ================================================================== *)
(** ** Store identifiers *)
(* ================================================================== *)

Module Oid.

(** The binary of an [ObjectId] is a byte string.  Every identifier the
    store hands out has twelve bytes and is kept here as the number they
    spell in base 256, a number below [limit].  [ObjectId] of a string
    can also leave fewer than twelve bytes (see [ObjectId] below): a
    binary of [k] bytes spelling [v] is kept as [(12 - k) * limit + v],
    so that binaries of different lengths are different numbers and the
    numbers below [limit] are exactly the twelve-byte ones. *)
Definition oid := N.

Definition limit : N := 16 ^ 24.

Definition of_bytes (k : nat) (v : N) : oid :=
  (N.of_nat (12 - k) * limit + v)%N.

Definition byte_count (o : oid) : nat := N.to_nat (12 - o / limit)%N.

Definition value (o : oid) : N := (o mod limit)%N.

(** The lower-case digit of a value below 16. *)
Definition hex_digit (d : N) : ascii :=
  ascii_of_N (if d <? 10 then 48 + d else 87 + d)%N.

(** The value of a hexadecimal digit: [0-9], [a-f] or [A-F]. *)
Definition hex_value (c : ascii) : option N :=
  let n := N_of_ascii c in
  if ((48 <=? n) && (n <=? 57))%N then Some (n - 48)%N
  else if ((97 <=? n) && (n <=? 102))%N then Some (n - 87)%N
  else if ((65 <=? n) && (n <=? 70))%N then Some (n - 55)%N
  else None.

(** ASCII whitespace, as [bytes.fromhex] skips it: space, and tab to
    carriage return. *)
Definition is_space (c : ascii) : bool :=
  let n := N_of_ascii c in
  ((n =? 32) || ((9 <=? n) && (n <=? 13)))%N.

(** [bytes.fromhex(s)]: two hexadecimal digits per byte, whitespace
    skipped between bytes but not inside one; [k] bytes spelling [v]
    have been read so far.  [None] stands for [ValueError]; a character
    outside ASCII is neither a digit nor whitespace. *)
Fixpoint fromhex (s : string) (k : nat) (v : N) : option (nat * N) :=
  match s with
  | EmptyString => Some (k, v)
  | String c r =>
      if is_space c then fromhex r k v
      else
        match hex_value c, r with
        | Some top, String c' r' =>
            match hex_value c' with
            | Some bot => fromhex r' (S k) (256 * v + 16 * top + bot)%N
            | None => None
            end
        | _, _ => None
        end
  end.

(** [k] digits of [n], most significant first. *)
Fixpoint hex_render (k : nat) (n : N) : string :=
  match k with
  | O => EmptyString
  | S k' => String (hex_digit ((n / 16 ^ N.of_nat k') mod 16)) (hex_render k' n)
  end.

(** [ObjectId(s)] of the driver for a [str]: the string must have 24
    characters and [bytes.fromhex] must accept it; [None] stands for
    the [InvalidId] exception.  So 24 hexadecimal digits (either case)
    give a twelve-byte identifier, and 24 characters of digit pairs and
    whitespace are accepted too and give a shorter binary. *)
Definition ObjectId (s : string) : option oid :=
  if Nat.eqb (String.length s) 24
  then match fromhex s 0 0 with
       | Some (k, v) => Some (of_bytes k v)
       | None => None
       end
  else None.

(** [str(oid)]: two lower-case hexadecimal digits per byte, 24 digits
    for an identifier of the store. *)
Definition str (o : oid) : string := hex_render (2 * byte_count o) (value o).

Definition well_formed (s : string) : Prop := ObjectId s <> None.

Fixpoint all_hex (s : string) : bool :=
  match s with
  | EmptyString => true
  | String c r =>
      match hex_value c with
      | Some _ => all_hex r
      | None => false
      end
  end.

(** The format of the identifiers the store hands out and accepts back
    as such: 24 hexadecimal digits. *)
Definition store_format (s : string) : bool :=
  Nat.eqb (String.length s) 24 && all_hex s.

End Oid.

(* ================================================================== *)
(** ** Record shapes ([schemas.py]) *)
(* ================================================================== *)

Record User := mkUser {
  user_name : option string;
  user_email : string;
  password_hash : option string;
  auth_provider : string;
  is_active : bool
}.

(** [User(email=..., ...)] with the defaults of the schema. *)
Definition User_new (email : string) (name : option string)
    (pw : option string) (provider : string) : User :=
  mkUser name email pw provider true.

Record LeadJob := mkLeadJob {
  job_user_id : option string;
  job_location : string;
  job_job_title : string;
  job_company_size_range : string;
  job_industry_keywords : list string;
  status : string;
  result_count : Z
}.

Record Lead := mkLead {
  job_id : string;
  name : string;
  email : option string;
  phone : option string;
  linkedin : option string;
  company : string;
  title : string;
  location : string;
  company_size : string;
  industry : option string
}.

(* ================================================================== *)
(** ** Request bodies ([main.py]) *)
(* ================================================================== *)

Record LeadRequest := mkLeadRequest {
  req_location : string;
  req_job_title : string;
  req_company_size_range : string;
  req_industry_keywords : list string
}.

(** The [Field] constraints of [LeadRequest].  Lengths are counted in
    bytes: for ASCII text this is the code's constraint, for other text
    it lets through a few more requests than the code does. *)
Definition LeadRequest_valid (p : LeadRequest) : bool :=
  Nat.leb 2 (String.length (req_location p))
  && Nat.leb 2 (String.length (req_job_title p))
  && Nat.leb 1 (String.length (req_company_size_range p))
  && Nat.leb 1 (List.length (req_industry_keywords p)).

Record LoginRequest := mkLoginRequest {
  login_email : string;
  login_password : string
}.

Record GoogleAuthRequest := mkGoogleAuthRequest {
  google_email : string;
  google_name : option string
}.

(* ================================================================== *)
(** ** Exceptions, outcomes and the handler monad *)
(* ================================================================== *)

(** Every exception class below derives from Python's [Exception], so a
    bare [except Exception] catches each of them, [HTTPException]
    included. *)
Inductive exn :=
| HTTPException (status_code : nat) (detail : string)
| InvalidId (oid : string)
| IndexError
| Exception (msg : string).

Inductive outcome (A : Type) :=
| Return (a : A)
| Raise (e : exn).
Arguments Return {A} a.
Arguments Raise {A} e.

(** What the HTTP framework answers: 200 for a returned value, the code
    of an [HTTPException], 500 for any other exception left uncaught. *)
Definition http_status {A} (r : outcome A) : nat :=
  match r with
  | Return _ => 200
  | Raise (HTTPException c _) => c
  | Raise _ => 500
  end.

Record store := mkStore {
  user : list (Oid.oid * User);
  leadjob : list (Oid.oid * LeadJob);
  lead : list (Oid.oid * Lead);
  next_oid : N
}.

(** The module-level [db]: [None] until the store is configured. *)
Definition database := option store.

(** A handler step reads and writes [db] and either returns or raises;
    what was written before a raise stays written. *)
Definition M (A : Type) : Type := database -> outcome A * database.

Definition ret {A} (a : A) : M A := fun db => (Return a, db).

Definition raise {A} (e : exn) : M A := fun db => (Raise e, db).

Definition bind {A B} (m : M A) (k : A -> M B) : M B :=
  fun db =>
    match m db with
    | (Return a, db') => k a db'
    | (Raise e, db') => (Raise e, db')
    end.

(** [try: body except Exception: handler]. *)
Definition try_except {A} (body : M A) (handler : exn -> M A) : M A :=
  fun db =>
    match body db with
    | (Return a, db') => (Return a, db')
    | (Raise e, db') => handler e db'
    end.

Declare Scope handler_scope.
Delimit Scope handler_scope with handler.
Notation "x <- m ;; k" := (bind m (fun x => k))
  (at level 61, m at next level, right associativity) : handler_scope.
Notation "m ;; k" := (bind m (fun _ => k))
  (at level 61, right associativity) : handler_scope.
Local Open Scope handler_scope.

(* ================================================================== *)
(** ** The document store ([database.py] and the driver) *)
(* ================================================================== *)

Module Db.

(** A collection of the store, addressed through its accessors. *)
Record collection (D : Type) := mkCollection {
  coll_name : string;
  docs : store -> list (Oid.oid * D);
  put_docs : list (Oid.oid * D) -> store -> store
}.
Arguments coll_name {D} c.
Arguments docs {D} c s.
Arguments put_docs {D} c l s.

Definition user_c : collection User :=
  mkCollection User "user" user
    (fun l s => mkStore l (leadjob s) (lead s) (next_oid s)).

Definition leadjob_c : collection LeadJob :=
  mkCollection LeadJob "leadjob" leadjob
    (fun l s => mkStore (user s) l (lead s) (next_oid s)).

Definition lead_c : collection Lead :=
  mkCollection Lead "lead" lead
    (fun l s => mkStore (user s) (leadjob s) l (next_oid s)).

Definition bump (s : store) : store :=
  mkStore (user s) (leadjob s) (lead s) (N.succ (next_oid s)).

(** Modelled from the spec: [create_document] of [database.py], which is
    not among the sources.  It inserts the record and returns the newly
    assigned identifier in display form, and fails when the store handle
    is absent.  Identifiers are handed out from the counter [next_oid],
    which makes them unique per collection; once the twelve bytes are
    used up the write fails. *)
Definition create_document {D} (c : collection D) (data : D) : M string :=
  fun db =>
    match db with
    | None => (Raise (Exception "Database not available"), db)
    | Some s =>
        let o := next_oid s in
        if (Oid.limit <=? o)%N
        then (Raise (Exception "Store write failed"), db)
        else (Return (Oid.str o), Some (bump (put_docs c (docs c s ++ [(o, data)]) s)))
    end.

(** Modelled from the spec: [get_documents] of [database.py], which is
    not among the sources.  It returns up to [limit] records matching the
    filter, in the order the store keeps them. *)
Definition get_documents {D} (c : collection D) (filter_dict : D -> bool)
    (limit : nat) : M (list (Oid.oid * D)) :=
  fun db =>
    match db with
    | None => (Raise (Exception "Database not available"), db)
    | Some s => (Return (firstn limit (filter (fun d => filter_dict (snd d)) (docs c s))), db)
    end.

(** [db[c].find_one(filter)] of the driver: the first matching record. *)
Definition find_one {D} (c : collection D) (filter_dict : Oid.oid * D -> bool)
    : M (option (Oid.oid * D)) :=
  fun db =>
    match db with
    | None => (Raise (Exception "'NoneType' object is not subscriptable"), db)
    | Some s => (Return (find filter_dict (docs c s)), db)
    end.

Fixpoint update_first {D} (o : Oid.oid) (f : D -> D) (l : list (Oid.oid * D))
    : list (Oid.oid * D) :=
  match l with
  | [] => []
  | (o', d) :: l' =>
      if N.eqb o' o then (o', f d) :: l' else (o', d) :: update_first o f l'
  end.

(** [db[c].update_one({"_id": o}, {"$set": ...})] of the driver: the
    first record with that identifier is rewritten, if there is one. *)
Definition update_one {D} (c : collection D) (o : Oid.oid) (set : D -> D) : M unit :=
  fun db =>
    match db with
    | None => (Raise (Exception "'NoneType' object is not subscriptable"), db)
    | Some s => (Return tt, Some (put_docs c (update_first o set (docs c s)) s))
    end.

(** Filters [{"_id": o}] and [{"email": e}].  Identifiers match when
    their binaries are equal, so a binary of fewer than twelve bytes
    matches no identifier handed out by the store. *)
Definition by_id {D} (o : Oid.oid) (d : Oid.oid * D) : bool := N.eqb (fst d) o.

Definition by_email (e : string) (d : Oid.oid * User) : bool :=
  String.eqb (user_email (snd d)) e.

End Db.

(** [ObjectId(s)] inside a handler. *)
Definition ObjectId (s : string) : M Oid.oid :=
  match Oid.ObjectId s with
  | Some o => ret o
  | None => raise (InvalidId s)
  end.

(* ================================================================== *)
(** ** Responses *)
(* ================================================================== *)

Record UserInfo := mkUserInfo {
  info_email : string;
  info_name : option string
}.

Record AuthResponse := mkAuthResponse {
  token : string;
  auth_user : UserInfo
}.

Record LeadResponse := mkLeadResponse {
  resp_job_id : string;
  resp_status : string;
  message : string
}.

Record StatusResponse := mkStatusResponse {
  st_status : string;
  st_result_count : Z
}.

(** A lead as [get_lead_results] sends it: [_id] already a string. *)
Record LeadOut := mkLeadOut {
  out_id : string;
  out_lead : Lead
}.

(* ================================================================== *)
(** ** String formatting *)
(* ================================================================== *)

(** [f"{i}"] for a non-negative [int]. *)
Definition str_int (i : nat) : string :=
  DecimalString.NilEmpty.string_of_uint (Nat.to_uint i).

(** [f"{i:02d}"]: at least two digits, padded with a zero. *)
Definition format_02d (i : nat) : string :=
  let s := str_int i in
  if Nat.ltb (String.length s) 2 then "0" ++ s else s.

(* ================================================================== *)
(** ** Handlers ([main.py]) *)
(* ================================================================== *)

(** [if db is None: raise HTTPException(status_code=500, ...)]. *)
Definition require_db : M unit :=
  fun db =>
    match db with
    | None => (Raise (HTTPException 500 "Database not available"), db)
    | Some _ => (Return tt, db)
    end.

Definition user_info (u : Oid.oid * User) : UserInfo :=
  mkUserInfo (user_email (snd u)) (user_name (snd u)).

(** [find_one({"_id": ObjectId(user_id)})] followed by [user["_id"]]:
    subscripting [None] raises. *)
Definition refetch (user_id : string) : M (Oid.oid * User) :=
  o <- ObjectId user_id ;;
  user <- Db.find_one Db.user_c (Db.by_id o) ;;
  match user with
  | Some u => ret u
  | None => raise (Exception "'NoneType' object is not subscriptable")
  end.

Definition login (payload : LoginRequest) : M AuthResponse :=
  require_db ;;
  user <- Db.find_one Db.user_c (Db.by_email (login_email payload)) ;;
  user <- match user with
          | Some u => ret u
          | None =>
              user_id <- Db.create_document Db.user_c
                (User_new (login_email payload) None (Some "demo") "password") ;;
              refetch user_id
          end ;;
  let token := Oid.str (fst user) in
  ret (mkAuthResponse token (user_info user)).

(** [payload.name or '']: a missing or empty name becomes the empty string. *)
Definition name_or_empty (n : option string) : string :=
  match n with
  | Some (String c r) => String c r
  | _ => EmptyString
  end.

Definition google_auth (payload : GoogleAuthRequest) : M AuthResponse :=
  require_db ;;
  user <- Db.find_one Db.user_c (Db.by_email (google_email payload)) ;;
  user <- match user with
          | Some u => ret u
          | None =>
              user_id <- Db.create_document Db.user_c
                (User_new (google_email payload)
                   (Some (name_or_empty (google_name payload))) None "google") ;;
              refetch user_id
          end ;;
  let token := Oid.str (fst user) in
  ret (mkAuthResponse token (user_info user)).

Definition me (token : string) : M UserInfo :=
  require_db ;;
  try_except
    (o <- ObjectId token ;;
     user <- Db.find_one Db.user_c (Db.by_id o) ;;
     match user with
     | None => raise (HTTPException 404 "User not found")
     | Some u => ret (user_info u)
     end)
    (fun _ => raise (HTTPException 400 "Invalid token")).

(** [payload.industry_keywords[0]]. *)
Definition first_keyword (l : list string) : M string :=
  match l with
  | k :: _ => ret k
  | [] => raise IndexError
  end.

(** The [Lead(...)] built in iteration [i] of the loop. *)
Definition mock_lead (payload : LeadRequest) (job_id : string) (i : nat) : M Lead :=
  k <- first_keyword (req_industry_keywords payload) ;;
  ret (mkLead job_id
         ("Contact " ++ str_int i)
         (Some ("contact" ++ str_int i ++ "@example.com"))
         (Some ("+1-202-555-01" ++ format_02d i))
         (Some ("https://linkedin.com/in/contact" ++ str_int i))
         ("Company " ++ str_int i)
         (req_job_title payload)
         (req_location payload)
         (req_company_size_range payload)
         (Some k)).

(** The [for i in range(...)] loop, with [mock_leads] as accumulator. *)
Fixpoint generate (payload : LeadRequest) (job_id : string) (range : list nat)
    (mock_leads : list Lead) : M (list Lead) :=
  match range with
  | [] => ret mock_leads
  | i :: range' =>
      lead <- mock_lead payload job_id i ;;
      Db.create_document Db.lead_c lead ;;
      generate payload job_id range' (mock_leads ++ [lead])
  end.

Definition set_ready (n : Z) (j : LeadJob) : LeadJob :=
  mkLeadJob (job_user_id j) (job_location j) (job_job_title j)
    (job_company_size_range j) (job_industry_keywords j) "ready" n.

Definition request_leads (payload : LeadRequest) : M LeadResponse :=
  require_db ;;
  let job := mkLeadJob None (req_location payload) (req_job_title payload)
               (req_company_size_range payload) (req_industry_keywords payload)
               "processing" 0 in
  job_id <- Db.create_document Db.leadjob_c job ;;
  mock_leads <- generate payload job_id (seq 1 10) [] ;;
  o <- ObjectId job_id ;;
  Db.update_one Db.leadjob_c o (set_ready (Z.of_nat (List.length mock_leads))) ;;
  ret (mkLeadResponse job_id "processing"
         "Your leads are being generated. You'll be notified when ready.").

Definition get_lead_status (job_id : string) : M StatusResponse :=
  require_db ;;
  try_except
    (o <- ObjectId job_id ;;
     job <- Db.find_one Db.leadjob_c (Db.by_id o) ;;
     match job with
     | None => raise (HTTPException 404 "Job not found")
     | Some j => ret (mkStatusResponse (status (snd j)) (result_count (snd j)))
     end)
    (fun _ => raise (HTTPException 400 "Invalid job id")).

(** Filter [{"job_id": j}]. *)
Definition by_job_id (j : string) (l : Lead) : bool :=
  String.eqb (job_id l) j.

Definition get_lead_results (job_id : string) : M (list LeadOut) :=
  require_db ;;
  try_except
    (ObjectId job_id ;;
     leads <- Db.get_documents Db.lead_c (by_job_id job_id) 200 ;;
     ret (map (fun l => mkLeadOut (Oid.str (fst l)) (snd l)) leads))
    (fun _ => raise (HTTPException 400 "Invalid job id")).

(* ================================================================== *)
(** ** The API as a transition system *)
(* ================================================================== *)

Inductive request :=
| PostLogin (payload : LoginRequest)
| PostGoogle (payload : GoogleAuthRequest)
| GetMe (token : string)
| PostLeads (payload : LeadRequest)
| GetStatus (job_id : string)
| GetResults (job_id : string).

(** The store a request leaves behind, whatever it answers.  A lead
    request that fails validation never reaches its handler. *)
Definition after (r : request) (db : database) : database :=
  match r with
  | PostLogin p => snd (login p db)
  | PostGoogle p => snd (google_auth p db)
  | GetMe t => snd (me t db)
  | PostLeads p => if LeadRequest_valid p then snd (request_leads p db) else db
  | GetStatus j => snd (get_lead_status j db)
  | GetResults j => snd (get_lead_results j db)
  end.

(** A freshly connected store: no record yet, identifiers start at [n]. *)
Definition empty_store (n : N) : store := mkStore [] [] [] n.

(** The states the API can bring a configured store to, one request
    after the other. *)
Inductive reachable : store -> Prop :=
| reach_init n : (n <= Oid.limit)%N -> reachable (empty_store n)
| reach_step s r s' : reachable s -> after r (Some s) = Some s' -> reachable s'.

(* ================================================================== *)
(** ** Store properties *)
(* ================================================================== *)

Definition ids_below {D} (n : N) (l : list (Oid.oid * D)) : bool :=
  forallb (fun d => N.ltb (fst d) n) l.

(** The lead's job reference is the display form of a job of the store. *)
Definition refers_to_job (jobs : list (Oid.oid * LeadJob)) (l : Lead) : bool :=
  existsb (fun j => String.eqb (job_id l) (Oid.str (fst j))) jobs.

(** Identifiers were handed out by the counter and every lead points to
    a job of the store. *)
Definition store_ok (s : store) : bool :=
  N.leb (next_oid s) Oid.limit
  && ids_below (next_oid s) (user s)
  && ids_below (next_oid s) (leadjob s)
  && ids_below (next_oid s) (lead s)
  && forallb (fun d => refers_to_job (leadjob s) (snd d)) (lead s).

(** The leads of the store that reference job [j]. *)
Definition leads_of (j : string) (s : store) : list (Oid.oid * Lead) :=
  filter (fun d => by_job_id j (snd d)) (lead s).

(** The users of the store registered under [e]. *)
Definition users_with (e : string) (s : store) : list (Oid.oid * User) :=
  filter (Db.by_email e) (user s).

(** A ready job counts exactly the leads that reference it. *)
Definition ready_counted (s : store) : Prop :=
  forall o j, In (o, j) (leadjob s) -> status j = "ready" ->
    result_count j = Z.of_nat (List.length (leads_of (Oid.str o) s)).

Definition unique_emails (s : store) : Prop :=
  forall e, (List.length (users_with e s) <= 1)%nat.

(** The lead of iteration [i], once the first keyword [k] is known. *)
Definition placeholder (payload : LeadRequest) (j k : string) (i : nat) : Lead :=
  mkLead j
    ("Contact " ++ str_int i)
    (Some ("contact" ++ str_int i ++ "@example.com"))
    (Some ("+1-202-555-01" ++ format_02d i))
    (Some ("https://linkedin.com/in/contact" ++ str_int i))
    ("Company " ++ str_int i)
    (req_job_title payload)
    (req_location payload)
    (req_company_size_range payload)
    (Some k).

(** Records numbered with consecutive identifiers from [n] on. *)
Fixpoint number_from {D} (n : N) (l : list D) : list (Oid.oid * D) :=
  match l with
  | [] => []
  | d :: l' => (n, d) :: number_from (N.succ n) l'
  end.

(** The job record [request_leads] inserts. *)
Definition new_job (payload : LeadRequest) : LeadJob :=
  mkLeadJob None (req_location payload) (req_job_title payload)
    (req_company_size_range payload) (req_industry_keywords payload)
    "processing" 0.

(** The store a successful [request_leads] leaves: one job, ready with
    its count, and the leads of [range 1 11] numbered after it. *)
Definition fulfilled (payload : LeadRequest) (k : string) (s : store) : store :=
  let n := next_oid s in
  mkStore (user s)
    (leadjob s ++ [(n, set_ready 10 (new_job payload))])
    (lead s ++ number_from (N.succ n) (map (placeholder payload (Oid.str n) k) (seq 1 10)))
    (n + 11)%N.

Definition notice : string :=
  "Your leads are being generated. You'll be notified when ready.".

(** The store once [u] has been inserted in the user collection. *)
Definition with_user (u : User) (s : store) : store :=
  mkStore (user s ++ [(next_oid s, u)]) (leadjob s) (lead s) (N.succ (next_oid s)).

(** The store once job [j] and, after it, the leads [extra] have been
    inserted, the counter having moved to [n]. *)
Definition with_job (j : LeadJob) (extra : list (Oid.oid * Lead)) (n : N)
    (s : store) : store :=
  mkStore (user s) (leadjob s ++ [(next_oid s, j)]) (lead s ++ extra) n.

(** What every reachable store satisfies. *)
Definition invariant (s : store) : Prop :=
  store_ok s = true /\ ready_counted s /\ unique_emails s.

Definition demo_request : LeadRequest :=
  mkLeadRequest "NYC" "Engineer" "11-50" ["SaaS"].

(** The store after one [demo_request] on an empty store. *)
Definition demo_store : store := fulfilled demo_request "SaaS" (empty_store 0).

(* ================================================================== *)
(** ** Further definitions: both sign-in routes, job life cycle *)
(* ================================================================== *)

(** A call to either sign-in route. *)
Inductive auth_request :=
| ViaLogin (payload : LoginRequest)
| ViaGoogle (payload : GoogleAuthRequest).

Definition auth_email (a : auth_request) : string :=
  match a with
  | ViaLogin p => login_email p
  | ViaGoogle p => google_email p
  end.

Definition authenticate (a : auth_request) : M AuthResponse :=
  match a with
  | ViaLogin p => login p
  | ViaGoogle p => google_auth p
  end.

(** A job is either still [processing] with count 0, or [ready] with
    count 10. *)
Definition job_lifecycle (s : store) : Prop :=
  forall o j, In (o, j) (leadjob s) ->
    (status j = "processing" /\ result_count j = 0%Z) \/
    (status j = "ready" /\ result_count j = 10%Z).

Definition grows_from {A} (l l' : list A) : Prop :=
  exists more, l' = (l ++ more)%list.

(** A store whose only job has identifier 10, written [...0a]. *)
Definition lettered_store : store := fulfilled demo_request "SaaS" (empty_store 10).

(* ================================================================== *)
(** ** The diagnostic route ([test_database]) *)
(* ================================================================== *)

Record Diagnostic := mkDiagnostic {
  diag_backend : string;
  diag_database : string;
  diag_database_url : option string;
  diag_database_name : option string;
  diag_connection_status : string;
  diag_collections : list string
}.

Definition set_database (v : string) (r : Diagnostic) : Diagnostic :=
  mkDiagnostic (diag_backend r) v (diag_database_url r) (diag_database_name r)
    (diag_connection_status r) (diag_collections r).

Definition set_database_url (v : string) (r : Diagnostic) : Diagnostic :=
  mkDiagnostic (diag_backend r) (diag_database r) (Some v) (diag_database_name r)
    (diag_connection_status r) (diag_collections r).

Definition set_database_name (v : string) (r : Diagnostic) : Diagnostic :=
  mkDiagnostic (diag_backend r) (diag_database r) (diag_database_url r) (Some v)
    (diag_connection_status r) (diag_collections r).

Definition set_connection_status (v : string) (r : Diagnostic) : Diagnostic :=
  mkDiagnostic (diag_backend r) (diag_database r) (diag_database_url r)
    (diag_database_name r) v (diag_collections r).

Definition set_collections (v : list string) (r : Diagnostic) : Diagnostic :=
  mkDiagnostic (diag_backend r) (diag_database r) (diag_database_url r)
    (diag_database_name r) (diag_connection_status r) v.

(** Python's truth value of what [os.getenv] returns: unset and empty
    are both false. *)
Definition truthy (v : option string) : bool :=
  match v with
  | Some (String _ _) => true
  | _ => false
  end.

Section Diagnostics.

(** The process environment, [os.getenv]. *)
Variable getenv : string -> option string.

(** [db.name], when the handle has that attribute. *)
Variable db_name : store -> option string.

(** [db.list_collection_names()] of the driver: the names, or the text
    [str(e)] of the exception it raised. *)
Variable list_collection_names : store -> list string + string.

(** Nothing in the outer [try] raises outside the inner one, so the
    outer [except] branch has no counterpart here.  Texts are byte
    strings: [str(e)[:50]] is cut at 50 bytes. *)
Definition test_database (db : database) : Diagnostic :=
  let response :=
    mkDiagnostic "✅ Running" "❌ Not Available" None None "Not Connected" [] in
  let response :=
    match db with
    | Some d =>
        let response := set_database "✅ Available" response in
        let response := set_database_url "✅ Configured" response in
        let response :=
          set_database_name
            (match db_name d with Some n => n | None => "✅ Connected" end)
            response in
        let response := set_connection_status "Connected" response in
        match list_collection_names d with
        | inl collections =>
            let response := set_collections (firstn 10 collections) response in
            set_database "✅ Connected & Working" response
        | inr e =>
            set_database ("⚠️  Connected but Error: " ++ substring 0 50 e) response
        end
    | None => set_database "⚠️  Available but not initialized" response
    end in
  let response :=
    set_database_url
      (if truthy (getenv "DATABASE_URL") then "✅ Set" else "❌ Not Set") response in
  let response :=
    set_database_name
      (if truthy (getenv "DATABASE_NAME") then "✅ Set" else "❌ Not Set") response in
  response.

End Diagnostics.

(** Unfolds the diagnostic down to its field updates. *)
Ltac diag_simpl :=
  cbv beta iota zeta delta
    [test_database set_database set_database_url set_database_name
     set_connection_status set_collections diag_backend diag_database
     diag_database_url diag_database_name diag_connection_status diag_collections].

(** Unfolds a handler down to the store primitives. *)
Ltac run_handler :=
  unfold me, get_lead_status, get_lead_results, login, google_auth, refetch,
    ObjectId, Db.find_one, Db.get_documents, require_db, try_except, bind, ret, raise;
  cbn [fst snd Db.docs Db.user_c Db.leadjob_c Db.lead_c].

(** Projects fields out of explicit stores, in the goal and the context. *)
Ltac store_simpl :=
  cbn [user leadjob lead next_oid fst snd Db.bump Db.put_docs Db.docs
       Db.user_c Db.leadjob_c Db.lead_c] in *.

(* ================================================================== *)
(** ** Identifier codec *)
(* ================================================================== *)

Module OidFacts.
Import Oid.
Local Open Scope N_scope.

Lemma hex_value_digit d : d < 16 -> hex_value (hex_digit d) = Some d.
Proof.
  intros H.
  destruct d as [|p]; [reflexivity|].
  do 4 (destruct p as [p|p|]; try reflexivity); exfalso; lia.
Qed.

Lemma is_space_digit d : d < 16 -> is_space (hex_digit d) = false.
Proof.
  intros H.
  destruct d as [|p]; [reflexivity|].
  do 4 (destruct p as [p|p|]; try reflexivity); exfalso; lia.
Qed.

Lemma length_hex_render k n : String.length (hex_render k n) = k.
Proof. induction k; simpl; congruence. Qed.

Lemma two_digits_one_byte m :
  16 * ((m / 16) mod 16) + m mod 16 = m mod 256.
Proof.
  change 256 with (16 * 16). rewrite N.Div0.mod_mul_r. lia.
Qed.

(** Reading back [2 * k] rendered digits gives [k] bytes. *)
Lemma fromhex_render k : forall n j acc,
  fromhex (hex_render (2 * k) n) j acc =
    Some ((j + k)%nat, acc * 256 ^ N.of_nat k + n mod 256 ^ N.of_nat k).
Proof.
  induction k as [|k IH]; intros n j acc.
  - cbn. rewrite N.mod_1_r, Nat.add_0_r. f_equal. f_equal. lia.
  - replace (2 * S k)%nat with (S (S (2 * k))) by lia.
    cbn [hex_render fromhex].
    rewrite !is_space_digit, !hex_value_digit by (apply N.mod_lt; lia).
    rewrite IH. f_equal. f_equal; [lia|].
    set (P := 256 ^ N.of_nat k).
    assert (E1 : 16 ^ N.of_nat (2 * k) = P).
    { rewrite Nnat.Nat2N.inj_mul, N.pow_mul_r. reflexivity. }
    assert (E2 : 16 ^ N.of_nat (S (2 * k)) = 16 * P).
    { rewrite Nnat.Nat2N.inj_succ, N.pow_succ_r', E1. reflexivity. }
    assert (E3 : 256 ^ N.of_nat (S k) = P * 256).
    { rewrite Nnat.Nat2N.inj_succ, N.pow_succ_r'. apply N.mul_comm. }
    assert (E4 : n / (16 * P) = n / P / 16).
    { rewrite (N.mul_comm 16 P), N.Div0.div_div. reflexivity. }
    rewrite E1, E2, E3, E4, N.Div0.mod_mul_r.
    rewrite <- (two_digits_one_byte (n / P)).
    lia.
Qed.

Lemma ObjectId_str o : o < limit -> ObjectId (str o) = Some o.
Proof.
  intros H. unfold ObjectId, str, byte_count, value.
  rewrite N.div_small, N.mod_small by exact H.
  change (N.to_nat (12 - 0)) with 12%nat.
  rewrite length_hex_render, Nat.eqb_refl, fromhex_render.
  unfold of_bytes. change (256 ^ N.of_nat 12) with limit.
  rewrite N.mod_small by exact H. cbn [Nat.add Nat.sub N.of_nat].
  rewrite !N.mul_0_l, !N.add_0_l. reflexivity.
Qed.

Lemma str_inj a b : a < limit -> b < limit -> str a = str b -> a = b.
Proof.
  intros Ha Hb E.
  apply ObjectId_str in Ha, Hb. rewrite E in Ha. congruence.
Qed.

End OidFacts.

(* ================================================================== *)
(** ** Read-only handlers *)
(* ================================================================== *)

Lemma In_firstn {A} n (l : list A) x : In x (firstn n l) -> In x l.
Proof.
  intros H. rewrite <- (firstn_skipn n l). apply in_or_app. left. exact H.
Qed.

Lemma by_job_id_true j l : by_job_id j l = true <-> job_id l = j.
Proof. unfold by_job_id. apply String.eqb_eq. Qed.

Lemma by_id_true {D} o (d : Oid.oid * D) : Db.by_id o d = true <-> fst d = o.
Proof. unfold Db.by_id. apply N.eqb_eq. Qed.

(** A well-formed identifier without a record is answered 400: the 404
    raised inside [try] is caught by the handler's own [except]. *)
Lemma me_unknown s t o :
  Oid.ObjectId t = Some o -> find (Db.by_id o) (user s) = None ->
  me t (Some s) = (Raise (HTTPException 400 "Invalid token"), Some s).
Proof. intros Ho Hf. run_handler. rewrite Ho. cbn. rewrite Hf. reflexivity. Qed.

Lemma get_lead_status_unknown s t o :
  Oid.ObjectId t = Some o -> find (Db.by_id o) (leadjob s) = None ->
  get_lead_status t (Some s) = (Raise (HTTPException 400 "Invalid job id"), Some s).
Proof. intros Ho Hf. run_handler. rewrite Ho. cbn. rewrite Hf. reflexivity. Qed.

(** C3 (evaluation at the failing input).  On a store without any
    record, the well-formed identifier of 24 zeros is answered 400 by
    both [me] and [get_lead_status], not 404. *)
Theorem unknown_identifier_is_answered_400 :
  let t := "000000000000000000000000" in
  Oid.well_formed t /\
  http_status (fst (me t (Some (empty_store 0)))) = 400 /\
  http_status (fst (get_lead_status t (Some (empty_store 0)))) = 400.
Proof.
  cbv zeta. split; [|split].
  - unfold Oid.well_formed. vm_compute. discriminate.
  - vm_compute. reflexivity.
  - vm_compute. reflexivity.
Qed.

(** C4 (as amended).  With the store available, an identifier that
    [ObjectId] rejects (a string that has not 24 characters, or that
    [bytes.fromhex] refuses) makes [me], [get_lead_status] and
    [get_lead_results] raise [HTTPException] 400, and the store is left
    as it was. *)
Theorem malformed_identifier_is_bad_request s t :
  Oid.ObjectId t = None ->
  me t (Some s) = (Raise (HTTPException 400 "Invalid token"), Some s) /\
  get_lead_status t (Some s) = (Raise (HTTPException 400 "Invalid job id"), Some s) /\
  get_lead_results t (Some s) = (Raise (HTTPException 400 "Invalid job id"), Some s).
Proof.
  intros Ho. repeat split; run_handler; rewrite Ho; reflexivity.
Qed.

Lemma malformed_identifier_is_bad_request_witness :
  Oid.ObjectId "not-an-id" = None /\
  http_status (fst (me "not-an-id" (Some (empty_store 0)))) = 400 /\
  http_status (fst (get_lead_status "not-an-id" (Some (empty_store 0)))) = 400 /\
  http_status (fst (get_lead_results "not-an-id" (Some (empty_store 0)))) = 400.
Proof.
  assert (H : Oid.ObjectId "not-an-id" = None) by reflexivity.
  destruct (malformed_identifier_is_bad_request (empty_store 0) "not-an-id" H)
    as (H1 & H2 & H3).
  rewrite H1, H2, H3. repeat split; reflexivity.
Defined.

(** C4 (counterexample).  Not every string outside the store format
    is answered 400: the 24 characters made of eight [00] pairs, each
    followed by a space, are not 24 hexadecimal digits, yet [ObjectId]
    accepts them and [get_lead_results] returns an empty list with
    status 200. *)
Lemma spaced_identifier_is_not_bad_request :
  ~ (forall s t, Oid.store_format t = false ->
       http_status (fst (me t (Some s))) = 400 /\
       http_status (fst (get_lead_status t (Some s))) = 400 /\
       http_status (fst (get_lead_results t (Some s))) = 400).
Proof.
  intros H.
  destruct (H (empty_store 0) "00 00 00 00 00 00 00 00 " eq_refl) as (_ & _ & H3).
  vm_compute in H3. discriminate.
Qed.

(** C9.  [login] never looks at the password: from the same store, two
    passwords give the same answer and the same store. *)
Theorem login_ignores_password db e p1 p2 :
  login (mkLoginRequest e p1) db = login (mkLoginRequest e p2) db.
Proof. reflexivity. Qed.

Lemma get_lead_results_run s t o :
  Oid.ObjectId t = Some o ->
  get_lead_results t (Some s) =
    (Return (map (fun l => mkLeadOut (Oid.str (fst l)) (snd l))
               (firstn 200 (leads_of t s))), Some s).
Proof. intros Ho. run_handler. rewrite Ho. reflexivity. Qed.

(** C7.  For a well-formed [job_id], [get_lead_results] returns at most
    200 records; each is a lead of the store whose [job_id] field is the
    given one, sent with its identifier in display (string) form. *)
Theorem get_lead_results_sound s t o :
  Oid.ObjectId t = Some o ->
  exists leads,
    get_lead_results t (Some s) = (Return leads, Some s) /\
    (List.length leads <= 200)%nat /\
    Forall (fun l => job_id (out_lead l) = t) leads /\
    Forall (fun l => exists i, out_id l = Oid.str i /\ In (i, out_lead l) (lead s)) leads.
Proof.
  intros Ho. eexists. split; [apply (get_lead_results_run s t o Ho)|].
  split; [|split].
  - rewrite length_map, length_firstn. apply Nat.le_min_l.
  - apply Forall_forall. intros l Hl. apply in_map_iff in Hl.
    destruct Hl as ([i d] & <- & Hin). apply In_firstn in Hin.
    apply filter_In in Hin. destruct Hin as [_ Hj].
    apply by_job_id_true in Hj. exact Hj.
  - apply Forall_forall. intros l Hl. apply in_map_iff in Hl.
    destruct Hl as ([i d] & <- & Hin). apply In_firstn in Hin.
    apply filter_In in Hin. destruct Hin as [Hin _].
    exists i. split; [reflexivity | exact Hin].
Qed.

(* ================================================================== *)
(** ** Writes *)
(* ================================================================== *)

Section Writes.
Local Open Scope N_scope.

Lemma create_document_run {D} (c : Db.collection D) (d : D) s :
  next_oid s < Oid.limit ->
  Db.create_document c d (Some s) =
    (Return (Oid.str (next_oid s)),
     Some (Db.bump (Db.put_docs c (Db.docs c s ++ [(next_oid s, d)])%list s))).
Proof.
  intros H. unfold Db.create_document.
  destruct (N.leb_spec Oid.limit (next_oid s)) as [Hle|_]; [lia | reflexivity].
Qed.

Lemma create_document_full {D} (c : Db.collection D) (d : D) s :
  Oid.limit <= next_oid s ->
  Db.create_document c d (Some s) = (Raise (Exception "Store write failed"), Some s).
Proof.
  intros H. unfold Db.create_document.
  destruct (N.leb_spec Oid.limit (next_oid s)) as [_|Hlt]; [reflexivity | lia].
Qed.

Lemma number_from_snd {D} (l : list D) : forall n, map snd (number_from n l) = l.
Proof. induction l; intros n; simpl; f_equal; auto. Qed.

Variable payload : LeadRequest.
Variable k : string.
Variable ks : list string.
Hypothesis keywords : req_industry_keywords payload = k :: ks.

Lemma mock_lead_run j i db :
  mock_lead payload j i db = (Return (placeholder payload j k i), db).
Proof. unfold mock_lead, first_keyword. rewrite keywords. reflexivity. Qed.

(** With room for every record, the loop writes one lead per index. *)
Lemma generate_run j : forall range acc s,
  next_oid s + N.of_nat (List.length range) <= Oid.limit ->
  generate payload j range acc (Some s) =
    (Return (acc ++ map (placeholder payload j k) range)%list,
     Some (mkStore (user s) (leadjob s)
             (lead s ++ number_from (next_oid s) (map (placeholder payload j k) range))%list
             (next_oid s + N.of_nat (List.length range)))).
Proof.
  induction range as [|i range IH]; intros acc s Hroom.
  - destruct s. cbn. rewrite !app_nil_r, N.add_0_r. reflexivity.
  - cbn [generate]. unfold bind at 1. rewrite mock_lead_run.
    cbn [List.length] in Hroom. rewrite Nnat.Nat2N.inj_succ in Hroom.
    unfold bind at 1. rewrite create_document_run by lia.
    rewrite IH by (store_simpl; lia).
    store_simpl. cbn [map number_from List.length].
    rewrite <- !app_assoc. cbn [app]. rewrite Nnat.Nat2N.inj_succ.
    replace (N.succ (next_oid s) + N.of_nat (List.length range))
      with (next_oid s + N.succ (N.of_nat (List.length range))) by lia.
    reflexivity.
Qed.

(** Whatever happens in the loop, it only appends leads of job [j]. *)
Lemma generate_frame j : forall range acc s,
  exists extra n',
    snd (generate payload j range acc (Some s)) =
      Some (mkStore (user s) (leadjob s) (lead s ++ extra)%list n') /\
    next_oid s <= n' /\
    (next_oid s <= Oid.limit -> n' <= Oid.limit) /\
    Forall (fun d => job_id (snd d) = j /\ fst d < n') extra /\
    (forall ls, fst (generate payload j range acc (Some s)) = Return ls ->
       List.length extra = List.length range /\
       List.length ls = (List.length acc + List.length range)%nat).
Proof.
  induction range as [|i range IH]; intros acc s.
  - exists [], (next_oid s). destruct s. cbn. rewrite app_nil_r.
    split; [reflexivity|]. split; [lia|]. split; [auto|]. split; [constructor|].
    intros ls Hr. injection Hr as <-. split; [reflexivity | lia].
  - cbn [generate]. unfold bind at 1 3. rewrite mock_lead_run.
    unfold bind at 1 2.
    destruct (N.lt_ge_cases (next_oid s) Oid.limit) as [Hlt|Hge].
    + rewrite create_document_run by exact Hlt.
      destruct (IH (acc ++ [placeholder payload j k i])%list
                  (Db.bump (Db.put_docs Db.lead_c
                     (Db.docs Db.lead_c s ++ [(next_oid s, placeholder payload j k i)])%list s)))
        as (extra & n' & Hs & Hn & Hl & Hall & Hlen).
      store_simpl.
      exists ((next_oid s, placeholder payload j k i) :: extra), n'.
      rewrite Hs, <- app_assoc. cbn [app].
      split; [reflexivity|]. split; [lia|]. split; [intros _; apply Hl; lia|].
      split.
      * constructor; [store_simpl; cbn [placeholder job_id]; split; [reflexivity|lia] | exact Hall].
      * intros ls Hr. apply Hlen in Hr. destruct Hr as [He Hls].
        rewrite length_app in Hls. cbn [List.length] in *. lia.
    + rewrite create_document_full by exact Hge.
      exists [], (next_oid s). destruct s. cbn. rewrite app_nil_r.
      split; [reflexivity|]. split; [lia|]. split; [auto|]. split; [constructor|].
      discriminate.
Qed.

End Writes.

(* ================================================================== *)
(** ** Lead requests *)
(* ================================================================== *)

Section Request.
Local Open Scope N_scope.

Lemma ids_below_In {D} n (l : list (Oid.oid * D)) :
  ids_below n l = true <-> forall d, In d l -> fst d < n.
Proof.
  unfold ids_below. rewrite forallb_forall.
  split; intros H d Hd; specialize (H d Hd); apply N.ltb_lt; exact H.
Qed.

Lemma ids_below_mono {D} n m (l : list (Oid.oid * D)) :
  n <= m -> ids_below n l = true -> ids_below m l = true.
Proof.
  intros Hnm H. apply ids_below_In. intros d Hd.
  apply (proj1 (ids_below_In n l) H) in Hd. lia.
Qed.

Lemma update_first_fresh {D} n (f : D -> D) d (l : list (Oid.oid * D)) :
  ids_below n l = true ->
  Db.update_first n f (l ++ [(n, d)]) = (l ++ [(n, f d)])%list.
Proof.
  induction l as [|[o x] l IH]; intros H.
  - cbn. rewrite N.eqb_refl. reflexivity.
  - cbn in H. apply andb_prop in H. destruct H as [Ho Hl].
    apply N.ltb_lt in Ho. cbn [app Db.update_first].
    destruct (N.eqb_spec o n) as [->|_]; [lia|].
    rewrite (IH Hl). reflexivity.
Qed.

Lemma find_fresh {D} n d (l : list (Oid.oid * D)) :
  ids_below n l = true ->
  find (Db.by_id n) (l ++ [(n, d)]) = Some (n, d).
Proof.
  induction l as [|[o x] l IH]; intros H.
  - cbn. unfold Db.by_id. cbn. rewrite N.eqb_refl. reflexivity.
  - cbn in H. apply andb_prop in H. destruct H as [Ho Hl].
    apply N.ltb_lt in Ho. cbn [app find]. unfold Db.by_id at 1. cbn [fst].
    destruct (N.eqb_spec o n) as [->|_]; [lia|]. exact (IH Hl).
Qed.

Lemma find_fresh_none {D} n (l : list (Oid.oid * D)) :
  ids_below n l = true -> find (Db.by_id n) l = None.
Proof.
  intros H. destruct (find (Db.by_id n) l) as [d|] eqn:E; [|reflexivity].
  apply find_some in E. destruct E as [Hin Hid].
  apply by_id_true in Hid. apply (proj1 (ids_below_In n l) H) in Hin. lia.
Qed.

Lemma store_ok_parts s :
  store_ok s = true ->
  next_oid s <= Oid.limit /\
  ids_below (next_oid s) (user s) = true /\
  ids_below (next_oid s) (leadjob s) = true /\
  ids_below (next_oid s) (lead s) = true /\
  forallb (fun d => refers_to_job (leadjob s) (snd d)) (lead s) = true.
Proof.
  unfold store_ok. intros H.
  repeat (apply andb_prop in H; destruct H as [H ?]).
  apply N.leb_le in H. auto.
Qed.

Variable payload : LeadRequest.
Variable k : string.
Variable ks : list string.
Hypothesis keywords : req_industry_keywords payload = k :: ks.

(** With room for eleven identifiers, [request_leads] runs to its end. *)
Lemma request_leads_run s :
  store_ok s = true ->
  next_oid s + 11 <= Oid.limit ->
  request_leads payload (Some s) =
    (Return (mkLeadResponse (Oid.str (next_oid s)) "processing" notice),
     Some (fulfilled payload k s)).
Proof.
  intros Hok Hroom. apply store_ok_parts in Hok.
  destruct Hok as (_ & _ & Hjobs & _ & _).
  unfold request_leads. unfold bind at 1. cbn [require_db].
  unfold bind at 1. rewrite create_document_run by lia.
  unfold bind at 1.
  rewrite (generate_run payload k ks keywords) by (store_simpl; cbn [List.length seq]; lia).
  unfold bind at 1. unfold ObjectId.
  rewrite OidFacts.ObjectId_str by lia.
  unfold bind, ret, Db.update_one. store_simpl.
  rewrite update_first_fresh by exact Hjobs.
  rewrite length_app, length_map, length_seq. cbn [List.length Nat.add Z.of_nat].
  unfold fulfilled, new_job, notice. cbn [app].
  change (Z.pos (PosDef.Pos.of_succ_nat 9)) with 10%Z.
  replace (N.succ (next_oid s) + N.of_nat 10) with (next_oid s + 11)
    by (change (N.of_nat 10) with 10; lia).
  reflexivity.
Qed.

End Request.

Section Fulfilment.
Local Open Scope N_scope.

Lemma valid_keywords p :
  LeadRequest_valid p = true -> exists k ks, req_industry_keywords p = k :: ks.
Proof.
  unfold LeadRequest_valid. intros H. apply andb_prop in H. destruct H as [_ H].
  destruct (req_industry_keywords p) as [|k ks]; [discriminate|]. eauto.
Qed.

Lemma filter_none {A} (f : A -> bool) l :
  (forall x, In x l -> f x = false) -> filter f l = [].
Proof.
  induction l as [|a l IH]; intros H; [reflexivity|].
  cbn. rewrite (H a) by (left; reflexivity).
  apply IH. intros x Hx. apply H. right. exact Hx.
Qed.

Lemma filter_all {A} (f : A -> bool) l :
  (forall x, In x l -> f x = true) -> filter f l = l.
Proof.
  induction l as [|a l IH]; intros H; [reflexivity|].
  cbn. rewrite (H a) by (left; reflexivity). f_equal.
  apply IH. intros x Hx. apply H. right. exact Hx.
Qed.

Lemma refers_to_job_In jobs l :
  refers_to_job jobs l = true <->
  exists o j, In (o, j) jobs /\ job_id l = Oid.str o.
Proof.
  unfold refers_to_job. rewrite existsb_exists. split.
  - intros ([o j] & Hin & E). apply String.eqb_eq in E. eauto.
  - intros (o & j & Hin & E). exists (o, j). split; [exact Hin|].
    apply String.eqb_eq. exact E.
Qed.

(** No lead of a well-kept store points to the identifier the counter
    will hand out next, nor to any later one. *)
Lemma no_lead_of_fresh s n :
  store_ok s = true -> next_oid s <= n -> n < Oid.limit ->
  leads_of (Oid.str n) s = [].
Proof.
  intros Hok Hn Hlim. apply store_ok_parts in Hok.
  destruct Hok as (_ & _ & Hjobs & _ & Href).
  apply filter_none. intros d Hd.
  destruct (by_job_id (Oid.str n) (snd d)) eqn:E; [|reflexivity].
  apply by_job_id_true in E.
  rewrite forallb_forall in Href. apply Href in Hd.
  apply refers_to_job_In in Hd. destruct Hd as (o & j & Hin & Eo).
  apply (proj1 (ids_below_In _ _) Hjobs) in Hin. cbn [fst] in Hin.
  rewrite Eo in E. apply OidFacts.str_inj in E; lia.
Qed.

Lemma leads_of_numbered payload j k n range :
  filter (fun d => by_job_id j (snd d))
    (number_from n (map (placeholder payload j k) range))
  = number_from n (map (placeholder payload j k) range).
Proof.
  apply filter_all. intros d Hd.
  apply (in_map snd) in Hd. rewrite number_from_snd in Hd.
  apply in_map_iff in Hd. destruct Hd as (i & <- & _).
  apply by_job_id_true. reflexivity.
Qed.

(** C1.  On a well-kept store with room for eleven identifiers, a valid
    request makes [request_leads] return, having appended exactly 10
    leads, each with [job_id] equal to the [job_id] of the response; no
    other lead references that job; and the job it created (absent
    before) has [result_count] 10. *)
Theorem request_leads_creates_ten_leads s payload :
  store_ok s = true ->
  next_oid s + 11 <= Oid.limit ->
  LeadRequest_valid payload = true ->
  exists r s' created,
    request_leads payload (Some s) = (Return r, Some s') /\
    lead s' = (lead s ++ created)%list /\
    List.length created = 10%nat /\
    Forall (fun d => job_id (snd d) = resp_job_id r) created /\
    leads_of (resp_job_id r) s' = created /\
    exists o j,
      Oid.ObjectId (resp_job_id r) = Some o /\
      find (Db.by_id o) (leadjob s) = None /\
      find (Db.by_id o) (leadjob s') = Some (o, j) /\
      result_count j = 10%Z.
Proof.
  intros Hok Hroom Hvalid.
  destruct (valid_keywords payload Hvalid) as (k & ks & Hk).
  pose proof (store_ok_parts s Hok) as (_ & _ & Hjobs & _ & _).
  eexists _, _, _. split; [apply (request_leads_run payload k ks Hk s Hok Hroom)|].
  cbn [resp_job_id]. unfold fulfilled. store_simpl.
  split; [reflexivity|]. split; [reflexivity|]. split; [|split].
  - apply Forall_forall. intros d Hd.
    apply (in_map snd) in Hd. rewrite number_from_snd in Hd.
    apply in_map_iff in Hd. destruct Hd as (i & <- & _). reflexivity.
  - unfold leads_of. store_simpl. rewrite filter_app, leads_of_numbered.
    change (filter (fun d => by_job_id (Oid.str (next_oid s)) (snd d)) (lead s))
      with (leads_of (Oid.str (next_oid s)) s).
    rewrite (no_lead_of_fresh s (next_oid s) Hok) by lia. reflexivity.
  - exists (next_oid s), (set_ready 10 (new_job payload)).
    split; [apply OidFacts.ObjectId_str; lia|].
    split; [apply find_fresh_none; exact Hjobs|].
    split; [apply find_fresh; exact Hjobs | reflexivity].
Qed.

(** C2.  Right after [request_leads] has returned, [get_lead_status] on
    the returned [job_id] answers status [ready] (with count 10), though
    the response of [request_leads] itself still says [processing]. *)
Theorem status_is_ready_after_request s payload :
  store_ok s = true ->
  next_oid s + 11 <= Oid.limit ->
  LeadRequest_valid payload = true ->
  exists r s',
    request_leads payload (Some s) = (Return r, Some s') /\
    get_lead_status (resp_job_id r) (Some s') =
      (Return (mkStatusResponse "ready" 10), Some s').
Proof.
  intros Hok Hroom Hvalid.
  destruct (valid_keywords payload Hvalid) as (k & ks & Hk).
  pose proof (store_ok_parts s Hok) as (_ & _ & Hjobs & _ & _).
  eexists _, _. split; [apply (request_leads_run payload k ks Hk s Hok Hroom)|].
  cbn [resp_job_id]. run_handler.
  rewrite OidFacts.ObjectId_str by lia.
  unfold fulfilled. store_simpl.
  rewrite find_fresh by exact Hjobs. reflexivity.
Qed.

(** A well-kept store has no lead for an identifier without a job. *)
Lemma no_job_no_leads s t o :
  store_ok s = true -> Oid.ObjectId t = Some o ->
  find (Db.by_id o) (leadjob s) = None ->
  leads_of t s = [].
Proof.
  intros Hok Ho Hnone. apply store_ok_parts in Hok.
  destruct Hok as (Hlim & _ & Hjobs & _ & Href).
  apply filter_none. intros d Hd.
  destruct (by_job_id t (snd d)) eqn:E; [|reflexivity].
  apply by_job_id_true in E.
  rewrite forallb_forall in Href. apply Href in Hd.
  apply refers_to_job_In in Hd. destruct Hd as (o' & j & Hin & Eo).
  pose proof (proj1 (ids_below_In _ _) Hjobs _ Hin) as Hlt. cbn [fst] in Hlt.
  assert (Eq : Oid.ObjectId t = Some o').
  { rewrite <- E, Eo. apply OidFacts.ObjectId_str. lia. }
  assert (o' = o) by congruence. subst o'.
  apply (find_none _ _ Hnone) in Hin.
  unfold Db.by_id in Hin. cbn [fst] in Hin. rewrite N.eqb_refl in Hin. discriminate.
Qed.

(** C10.  For a well-formed identifier, [get_lead_results] returns the
    empty list, not a 404, as soon as no lead of the store references
    it, whether or not a job with that identifier exists; in a well-kept
    store that is the case of every identifier that matches no job. *)
Theorem get_lead_results_unknown_is_empty s t o :
  Oid.ObjectId t = Some o ->
  (leads_of t s = [] ->
   get_lead_results t (Some s) = (Return [], Some s)) /\
  (store_ok s = true -> find (Db.by_id o) (leadjob s) = None ->
   get_lead_results t (Some s) = (Return [], Some s)).
Proof.
  intros Ho.
  assert (H : leads_of t s = [] -> get_lead_results t (Some s) = (Return [], Some s)).
  { intros Hl. rewrite (get_lead_results_run s t o Ho), Hl. reflexivity. }
  split; [exact H|].
  intros Hok Hnone. apply H. exact (no_job_no_leads s t o Hok Ho Hnone).
Qed.

End Fulfilment.

Section Placeholders.
Local Open Scope N_scope.

(** C8.  For a valid request (well-kept store, room for eleven
    identifiers) the ten leads written are, in the order of the loop,
    named [Contact 1] to [Contact 10], with emails
    [contact1@example.com] to [contact10@example.com], phones
    [+1-202-555-0101] to [+1-202-555-0110], links
    [https://linkedin.com/in/contact1] to [...contact10] and companies
    [Company 1] to [Company 10]; each has the returned [job_id], the
    first keyword as industry, and title, location and company size
    taken from the request; the first one is [Contact 1],
    [contact1@example.com]. *)
Theorem generated_leads_are_placeholders s payload :
  store_ok s = true ->
  next_oid s + 11 <= Oid.limit ->
  LeadRequest_valid payload = true ->
  exists r s' created,
    request_leads payload (Some s) = (Return r, Some s') /\
    lead s' = (lead s ++ created)%list /\
    map (fun d => name (snd d)) created =
      ["Contact 1"; "Contact 2"; "Contact 3"; "Contact 4"; "Contact 5";
       "Contact 6"; "Contact 7"; "Contact 8"; "Contact 9"; "Contact 10"] /\
    map (fun d => email (snd d)) created =
      [Some "contact1@example.com"; Some "contact2@example.com";
       Some "contact3@example.com"; Some "contact4@example.com";
       Some "contact5@example.com"; Some "contact6@example.com";
       Some "contact7@example.com"; Some "contact8@example.com";
       Some "contact9@example.com"; Some "contact10@example.com"] /\
    map (fun d => phone (snd d)) created =
      [Some "+1-202-555-0101"; Some "+1-202-555-0102"; Some "+1-202-555-0103";
       Some "+1-202-555-0104"; Some "+1-202-555-0105"; Some "+1-202-555-0106";
       Some "+1-202-555-0107"; Some "+1-202-555-0108"; Some "+1-202-555-0109";
       Some "+1-202-555-0110"] /\
    map (fun d => linkedin (snd d)) created =
      [Some "https://linkedin.com/in/contact1"; Some "https://linkedin.com/in/contact2";
       Some "https://linkedin.com/in/contact3"; Some "https://linkedin.com/in/contact4";
       Some "https://linkedin.com/in/contact5"; Some "https://linkedin.com/in/contact6";
       Some "https://linkedin.com/in/contact7"; Some "https://linkedin.com/in/contact8";
       Some "https://linkedin.com/in/contact9"; Some "https://linkedin.com/in/contact10"] /\
    map (fun d => company (snd d)) created =
      ["Company 1"; "Company 2"; "Company 3"; "Company 4"; "Company 5";
       "Company 6"; "Company 7"; "Company 8"; "Company 9"; "Company 10"] /\
    Forall (fun d =>
              job_id (snd d) = resp_job_id r /\
              industry (snd d) = hd_error (req_industry_keywords payload) /\
              title (snd d) = req_job_title payload /\
              location (snd d) = req_location payload /\
              company_size (snd d) = req_company_size_range payload) created /\
    (exists d,
       nth_error created 0 = Some d /\
       name (snd d) = "Contact 1" /\
       email (snd d) = Some "contact1@example.com").
Proof.
  intros Hok Hroom Hvalid.
  destruct (valid_keywords payload Hvalid) as (k & ks & Hk).
  eexists _, _, _. split; [apply (request_leads_run payload k ks Hk s Hok Hroom)|].
  unfold fulfilled. store_simpl. split; [reflexivity|].
  do 5 (split; [reflexivity|]). split.
  - rewrite Hk. repeat constructor.
  - eexists. split; [reflexivity|]. split; reflexivity.
Qed.

End Placeholders.

(* ================================================================== *)
(** ** Find-or-create *)
(* ================================================================== *)

Section Auth.
Local Open Scope N_scope.

Lemma find_app_none {A} (f : A -> bool) l l' :
  find f l = None -> find f (l ++ l') = find f l'.
Proof.
  induction l as [|a l IH]; intros H; [reflexivity|].
  cbn in H |- *. destruct (f a); [discriminate | exact (IH H)].
Qed.

Lemma find_none_filter {A} (f : A -> bool) l : find f l = None -> filter f l = [].
Proof.
  intros H. apply filter_none. intros x Hx.
  destruct (f x) eqn:E; [|reflexivity].
  exfalso. eapply find_none in H; [|exact Hx]. congruence.
Qed.

Lemma find_some_filter {A} (f : A -> bool) l x :
  find f l = Some x -> (1 <= List.length (filter f l))%nat.
Proof.
  intros H. apply find_some in H. destruct H as [Hin Hf].
  assert (Hx : In x (filter f l)) by (apply filter_In; auto).
  destruct (filter f l); [contradiction | cbn; lia].
Qed.

(** The three ways [login] can go on a well-kept store. *)
Lemma login_run p s :
  store_ok s = true ->
  login p (Some s) =
    match find (Db.by_email (login_email p)) (user s) with
    | Some u => (Return (mkAuthResponse (Oid.str (fst u)) (user_info u)), Some s)
    | None =>
        if Oid.limit <=? next_oid s
        then (Raise (Exception "Store write failed"), Some s)
        else let u := User_new (login_email p) None (Some "demo") "password" in
             (Return (mkAuthResponse (Oid.str (next_oid s))
                        (mkUserInfo (login_email p) None)),
              Some (with_user u s))
    end.
Proof.
  intros Hok. apply store_ok_parts in Hok. destruct Hok as (_ & Hu & _).
  run_handler.
  destruct (find (Db.by_email (login_email p)) (user s)) as [u|]; [reflexivity|].
  destruct (N.leb_spec Oid.limit (next_oid s)) as [Hge|Hlt].
  - rewrite create_document_full by exact Hge. reflexivity.
  - rewrite create_document_run by exact Hlt.
    rewrite OidFacts.ObjectId_str by exact Hlt. store_simpl.
    rewrite find_fresh by exact Hu. reflexivity.
Qed.

Lemma google_auth_run p s :
  store_ok s = true ->
  google_auth p (Some s) =
    match find (Db.by_email (google_email p)) (user s) with
    | Some u => (Return (mkAuthResponse (Oid.str (fst u)) (user_info u)), Some s)
    | None =>
        if Oid.limit <=? next_oid s
        then (Raise (Exception "Store write failed"), Some s)
        else let u := User_new (google_email p)
                        (Some (name_or_empty (google_name p))) None "google" in
             (Return (mkAuthResponse (Oid.str (next_oid s))
                        (mkUserInfo (google_email p) (Some (name_or_empty (google_name p))))),
              Some (with_user u s))
    end.
Proof.
  intros Hok. apply store_ok_parts in Hok. destruct Hok as (_ & Hu & _).
  run_handler.
  destruct (find (Db.by_email (google_email p)) (user s)) as [u|]; [reflexivity|].
  destruct (N.leb_spec Oid.limit (next_oid s)) as [Hge|Hlt].
  - rewrite create_document_full by exact Hge. reflexivity.
  - rewrite create_document_run by exact Hlt.
    rewrite OidFacts.ObjectId_str by exact Hlt. store_simpl.
    rewrite find_fresh by exact Hu. reflexivity.
Qed.

End Auth.

(* ================================================================== *)
(** ** The invariant of reachable stores *)
(* ================================================================== *)

Section Invariant.
Local Open Scope N_scope.

Lemma ids_below_app {D} n (l l' : list (Oid.oid * D)) :
  ids_below n (l ++ l') = ids_below n l && ids_below n l'.
Proof. unfold ids_below. apply forallb_app. Qed.

Lemma refers_to_job_more jobs jobs' l :
  refers_to_job jobs l = true -> refers_to_job (jobs ++ jobs') l = true.
Proof.
  unfold refers_to_job. intros H. rewrite existsb_app, H. reflexivity.
Qed.

Lemma invariant_with_user s u :
  invariant s -> next_oid s < Oid.limit ->
  find (Db.by_email (user_email u)) (user s) = None ->
  invariant (with_user u s).
Proof.
  intros (Hok & Hready & Huniq) Hlt Hnone.
  pose proof (store_ok_parts s Hok) as (_ & Hu & Hj & Hl & Href).
  split; [|split].
  - unfold store_ok, with_user. store_simpl.
    rewrite ids_below_app. cbn [ids_below forallb fst].
    rewrite (ids_below_mono (next_oid s) (N.succ (next_oid s)) (user s)) by (lia || assumption).
    rewrite (ids_below_mono (next_oid s) (N.succ (next_oid s)) (leadjob s)) by (lia || assumption).
    rewrite (ids_below_mono (next_oid s) (N.succ (next_oid s)) (lead s)) by (lia || assumption).
    rewrite Href.
    replace (N.succ (next_oid s) <=? Oid.limit) with true by (symmetry; apply N.leb_le; lia).
    replace (next_oid s <? N.succ (next_oid s)) with true by (symmetry; apply N.ltb_lt; lia).
    reflexivity.
  - exact Hready.
  - intros e. unfold users_with, with_user. store_simpl. rewrite filter_app.
    rewrite length_app. cbn [filter].
    destruct (Db.by_email e (next_oid s, u)) eqn:E.
    + unfold Db.by_email in E. cbn [snd] in E. apply String.eqb_eq in E. subst e.
      rewrite (find_none_filter _ _ Hnone). cbn. lia.
    + specialize (Huniq e). unfold users_with in Huniq. cbn [List.length]. lia.
Qed.

Lemma invariant_with_job s j (extra : list (Oid.oid * Lead)) n :
  invariant s -> next_oid s < Oid.limit ->
  next_oid s < n -> n <= Oid.limit ->
  Forall (fun d => job_id (snd d) = Oid.str (next_oid s) /\ fst d < n) extra ->
  (status j = "ready" -> result_count j = Z.of_nat (List.length extra)) ->
  invariant (with_job j extra n s).
Proof.
  intros (Hok & Hready & Huniq) Hlt Hn Hlim Hextra Hcount.
  pose proof (store_ok_parts s Hok) as (_ & Hu & Hj & Hl & Href).
  rewrite Forall_forall in Hextra.
  assert (Hmatch : filter (fun d : Oid.oid * Lead =>
                             by_job_id (Oid.str (next_oid s)) (snd d)) extra = extra).
  { apply filter_all. intros d Hd. apply by_job_id_true. apply (Hextra d Hd). }
  assert (Hother : forall o, o < next_oid s ->
            filter (fun d : Oid.oid * Lead => by_job_id (Oid.str o) (snd d)) extra = []).
  { intros o Ho. apply filter_none. intros d Hd.
    destruct (by_job_id (Oid.str o) (snd d)) eqn:E; [|reflexivity].
    apply by_job_id_true in E. destruct (Hextra d Hd) as [E' _].
    pose proof (eq_trans (eq_sym E) E') as E2.
    apply OidFacts.str_inj in E2; lia. }
  split; [|split].
  - unfold store_ok, with_job. store_simpl.
    rewrite !ids_below_app, forallb_app. cbn [ids_below forallb fst].
    rewrite (ids_below_mono (next_oid s) n (user s)) by (lia || assumption).
    rewrite (ids_below_mono (next_oid s) n (leadjob s)) by (lia || assumption).
    rewrite (ids_below_mono (next_oid s) n (lead s)) by (lia || assumption).
    replace (n <=? Oid.limit) with true by (symmetry; apply N.leb_le; lia).
    replace (next_oid s <? n) with true by (symmetry; apply N.ltb_lt; lia).
    cbn [andb].
    apply andb_true_intro. split; [|apply andb_true_intro; split].
    + apply ids_below_In. intros d Hd. apply (Hextra d Hd).
    + apply forallb_forall. intros d Hd. apply refers_to_job_more.
      rewrite forallb_forall in Href. exact (Href d Hd).
    + apply forallb_forall. intros d Hd. apply refers_to_job_In.
      exists (next_oid s), j. split; [apply in_or_app; right; left; reflexivity|].
      apply (Hextra d Hd).
  - intros o j' Hin Hst. unfold leads_of, with_job in *. store_simpl.
    rewrite filter_app, length_app. apply in_app_or in Hin.
    destruct Hin as [Hin|[Hin|[]]].
    + pose proof (proj1 (ids_below_In _ _) Hj _ Hin) as Ho. cbn [fst] in Ho.
      rewrite (Hother o Ho). cbn [List.length]. rewrite Nat.add_0_r.
      exact (Hready o j' Hin Hst).
    + injection Hin as <- <-.
      pose proof (no_lead_of_fresh s (next_oid s) Hok (N.le_refl _) Hlt) as Hfresh.
      unfold leads_of in Hfresh. rewrite Hfresh, Hmatch. exact (Hcount Hst).
  - exact Huniq.
Qed.

Lemma request_leads_after payload s :
  invariant s -> LeadRequest_valid payload = true ->
  exists s', snd (request_leads payload (Some s)) = Some s' /\ invariant s'.
Proof.
  intros Hinv Hvalid. destruct (valid_keywords payload Hvalid) as (k & ks & Hk).
  pose proof Hinv as (Hok & _ & _).
  pose proof (store_ok_parts s Hok) as (_ & _ & Hj & _ & _).
  unfold request_leads. unfold bind at 1. cbn [require_db]. unfold bind at 1.
  destruct (N.lt_ge_cases (next_oid s) Oid.limit) as [Hlt|Hge].
  2:{ rewrite create_document_full by exact Hge. exists s. split; [reflexivity | exact Hinv]. }
  rewrite create_document_run by exact Hlt. unfold bind at 1.
  destruct (generate_frame payload k ks Hk (Oid.str (next_oid s)) (seq 1 10) []
              (Db.bump (Db.put_docs Db.leadjob_c
                 (Db.docs Db.leadjob_c s ++ [(next_oid s, new_job payload)])%list s)))
    as (extra & n & Hs & Hn & Hlim & Hall & Hlen).
  fold (new_job payload).
  destruct (generate payload (Oid.str (next_oid s)) (seq 1 10) [] _) as [[ls|e] db'].
  - cbn [fst snd] in Hs, Hlen. subst db'. destruct (Hlen ls eq_refl) as [He Hls].
    unfold bind at 1. unfold ObjectId. rewrite OidFacts.ObjectId_str by exact Hlt.
    unfold bind, ret, Db.update_one. store_simpl.
    rewrite update_first_fresh by exact Hj.
    eexists. split; [reflexivity|].
    apply (invariant_with_job s (set_ready (Z.of_nat (List.length ls)) (new_job payload)) extra n);
      [exact Hinv | exact Hlt | lia | apply Hlim; lia | exact Hall |].
    intros _. cbn [set_ready result_count]. f_equal. cbn [List.length] in Hls. lia.
  - cbn [fst snd] in Hs. subst db'. store_simpl.
    eexists. split; [reflexivity|].
    apply (invariant_with_job s (new_job payload) extra n);
      [exact Hinv | exact Hlt | lia | apply Hlim; lia | exact Hall |].
    cbn. discriminate.
Qed.

End Invariant.

Section Reachability.
Local Open Scope N_scope.

Lemma me_after t s : snd (me t (Some s)) = Some s.
Proof.
  run_handler. destruct (Oid.ObjectId t) as [o|]; [|reflexivity].
  cbn. destruct (find (Db.by_id o) (user s)); reflexivity.
Qed.

Lemma get_lead_status_after t s : snd (get_lead_status t (Some s)) = Some s.
Proof.
  run_handler. destruct (Oid.ObjectId t) as [o|]; [|reflexivity].
  cbn. destruct (find (Db.by_id o) (leadjob s)); reflexivity.
Qed.

Lemma get_lead_results_after t s : snd (get_lead_results t (Some s)) = Some s.
Proof.
  run_handler. destruct (Oid.ObjectId t) as [o|]; reflexivity.
Qed.

Lemma login_after p s :
  invariant s -> exists s', snd (login p (Some s)) = Some s' /\ invariant s'.
Proof.
  intros Hinv. pose proof Hinv as (Hok & _ & _). rewrite (login_run p s Hok).
  destruct (find (Db.by_email (login_email p)) (user s)) as [u|] eqn:E.
  - exists s. split; [reflexivity | exact Hinv].
  - destruct (N.leb_spec Oid.limit (next_oid s)) as [Hge|Hlt].
    + exists s. split; [reflexivity | exact Hinv].
    + eexists. split; [reflexivity|].
      apply invariant_with_user; [exact Hinv | exact Hlt | exact E].
Qed.

Lemma google_auth_after p s :
  invariant s -> exists s', snd (google_auth p (Some s)) = Some s' /\ invariant s'.
Proof.
  intros Hinv. pose proof Hinv as (Hok & _ & _). rewrite (google_auth_run p s Hok).
  destruct (find (Db.by_email (google_email p)) (user s)) as [u|] eqn:E.
  - exists s. split; [reflexivity | exact Hinv].
  - destruct (N.leb_spec Oid.limit (next_oid s)) as [Hge|Hlt].
    + exists s. split; [reflexivity | exact Hinv].
    + eexists. split; [reflexivity|].
      apply invariant_with_user; [exact Hinv | exact Hlt | exact E].
Qed.

Lemma invariant_after r s s' :
  invariant s -> after r (Some s) = Some s' -> invariant s'.
Proof.
  intros Hinv Hstep. destruct r as [p|p|t|p|t|t]; cbn [after] in Hstep.
  - destruct (login_after p s Hinv) as (s1 & E & H1). congruence.
  - destruct (google_auth_after p s Hinv) as (s1 & E & H1). congruence.
  - rewrite me_after in Hstep. congruence.
  - destruct (LeadRequest_valid p) eqn:V; [|congruence].
    destruct (request_leads_after p s Hinv V) as (s1 & E & H1). congruence.
  - rewrite get_lead_status_after in Hstep. congruence.
  - rewrite get_lead_results_after in Hstep. congruence.
Qed.

Lemma invariant_empty n : n <= Oid.limit -> invariant (empty_store n).
Proof.
  intros H. split; [|split].
  - unfold store_ok, empty_store. cbn. rewrite !andb_true_r. apply N.leb_le. exact H.
  - intros o j [].
  - intros e. cbn. lia.
Qed.

Lemma reachable_invariant s : reachable s -> invariant s.
Proof.
  induction 1 as [n Hn | s r s' _ IH Hstep].
  - apply invariant_empty. exact Hn.
  - exact (invariant_after r s s' IH Hstep).
Qed.

(** C6.  In every store the API can reach, each job whose status is
    [ready] has a [result_count] equal to the number of leads whose
    [job_id] references it. *)
Theorem ready_jobs_count_their_leads s o j :
  reachable s ->
  In (o, j) (leadjob s) ->
  status j = "ready" ->
  result_count j = Z.of_nat (List.length (leads_of (Oid.str o) s)).
Proof.
  intros Hr. destruct (reachable_invariant s Hr) as (_ & Hready & _).
  apply Hready.
Qed.

Lemma lookup_after_insert s u :
  find (Db.by_email (user_email u)) (user s) = None ->
  find (Db.by_email (user_email u)) (user (with_user u s)) = Some (next_oid s, u) /\
  List.length (users_with (user_email u) (with_user u s)) = 1%nat.
Proof.
  intros Hnone. unfold users_with, with_user. store_simpl.
  rewrite (find_app_none _ _ _ Hnone), filter_app, (find_none_filter _ _ Hnone).
  cbn [find filter app]. unfold Db.by_email. cbn [snd].
  rewrite String.eqb_refl. split; reflexivity.
Qed.

Lemma lookup_existing s e u :
  unique_emails s -> find (Db.by_email e) (user s) = Some u ->
  List.length (users_with e s) = 1%nat.
Proof.
  intros Huniq Hfind. specialize (Huniq e).
  apply find_some_filter in Hfind. unfold users_with in *. lia.
Qed.

(** C5.  In a reachable store with an identifier left, [login] called
    twice with the same email (any two passwords) returns the same
    response, token included, both times; the second call leaves the
    store untouched and exactly one user carries that email afterwards.
    The same holds for [google_auth] (any two names). *)
Theorem auth_is_idempotent_on_email s e :
  reachable s ->
  next_oid s < Oid.limit ->
  (forall p1 p2, exists r s',
     login (mkLoginRequest e p1) (Some s) = (Return r, Some s') /\
     login (mkLoginRequest e p2) (Some s') = (Return r, Some s') /\
     List.length (users_with e s') = 1%nat) /\
  (forall n1 n2, exists r s',
     google_auth (mkGoogleAuthRequest e n1) (Some s) = (Return r, Some s') /\
     google_auth (mkGoogleAuthRequest e n2) (Some s') = (Return r, Some s') /\
     List.length (users_with e s') = 1%nat).
Proof.
  intros Hr Hlt. pose proof (reachable_invariant s Hr) as Hinv.
  pose proof Hinv as (Hok & _ & Huniq).
  split.
  - intros p1 p2. rewrite (login_run _ s Hok). cbn [login_email].
    destruct (find (Db.by_email e) (user s)) as [u|] eqn:E.
    + eexists _, s. split; [reflexivity|]. split.
      * rewrite (login_run _ s Hok). cbn [login_email]. rewrite E. reflexivity.
      * exact (lookup_existing s e u Huniq E).
    + destruct (N.leb_spec Oid.limit (next_oid s)) as [Hge|_]; [lia|].
      cbv zeta. set (u := User_new e None (Some "demo") "password").
      assert (E' : find (Db.by_email (user_email u)) (user s) = None) by exact E.
      destruct (lookup_after_insert s u E') as [Hfind Hone].
      eexists _, _. split; [reflexivity|]. split; [|exact Hone].
      pose proof (invariant_with_user s u Hinv Hlt E') as (Hok' & _ & _).
      rewrite (login_run _ _ Hok'). cbn [login_email].
      change e with (user_email u) at 1. rewrite Hfind. reflexivity.
  - intros n1 n2. rewrite (google_auth_run _ s Hok). cbn [google_email google_name].
    destruct (find (Db.by_email e) (user s)) as [u|] eqn:E.
    + eexists _, s. split; [reflexivity|]. split.
      * rewrite (google_auth_run _ s Hok). cbn [google_email]. rewrite E. reflexivity.
      * exact (lookup_existing s e u Huniq E).
    + destruct (N.leb_spec Oid.limit (next_oid s)) as [Hge|_]; [lia|].
      cbv zeta. set (u := User_new e (Some (name_or_empty n1)) None "google").
      assert (E' : find (Db.by_email (user_email u)) (user s) = None) by exact E.
      destruct (lookup_after_insert s u E') as [Hfind Hone].
      eexists _, _. split; [reflexivity|]. split; [|exact Hone].
      pose proof (invariant_with_user s u Hinv Hlt E') as (Hok' & _ & _).
      rewrite (google_auth_run _ _ Hok'). cbn [google_email].
      change e with (user_email u) at 1. rewrite Hfind. reflexivity.
Qed.

End Reachability.

(* ================================================================== *)
(** ** The theorems at work on the demo request *)
(* ================================================================== *)

Section Demo.
Local Open Scope N_scope.

Lemma demo_room : next_oid (empty_store 0) + 11 <= Oid.limit.
Proof. vm_compute. discriminate. Defined.

Lemma demo_reachable : reachable demo_store.
Proof.
  apply (reach_step (empty_store 0) (PostLeads demo_request)).
  - apply reach_init. vm_compute. discriminate.
  - reflexivity.
Defined.

Lemma request_leads_creates_ten_leads_witness :
  store_ok (empty_store 0) = true /\
  LeadRequest_valid demo_request = true /\
  exists r s',
    request_leads demo_request (Some (empty_store 0)) = (Return r, Some s') /\
    List.length (leads_of (resp_job_id r) s') = 10%nat.
Proof.
  split; [reflexivity|]. split; [reflexivity|].
  destruct (request_leads_creates_ten_leads (empty_store 0) demo_request
              eq_refl demo_room eq_refl)
    as (r & s' & created & Hrun & _ & Hlen & _ & Hof & _).
  exists r, s'. split; [exact Hrun|]. rewrite Hof. exact Hlen.
Defined.

Lemma status_is_ready_after_request_witness :
  store_ok (empty_store 0) = true /\
  LeadRequest_valid demo_request = true /\
  exists r s',
    request_leads demo_request (Some (empty_store 0)) = (Return r, Some s') /\
    get_lead_status (resp_job_id r) (Some s') =
      (Return (mkStatusResponse "ready" 10), Some s').
Proof.
  split; [reflexivity|]. split; [reflexivity|].
  exact (status_is_ready_after_request (empty_store 0) demo_request
           eq_refl demo_room eq_refl).
Defined.

Lemma generated_leads_are_placeholders_witness :
  store_ok (empty_store 0) = true /\
  LeadRequest_valid demo_request = true /\
  exists r s' d,
    request_leads demo_request (Some (empty_store 0)) = (Return r, Some s') /\
    nth_error (lead s') 0 = Some d /\
    name (snd d) = "Contact 1" /\
    email (snd d) = Some "contact1@example.com" /\
    nth_error (map (fun d => phone (snd d)) (lead s')) 9 = Some (Some "+1-202-555-0110").
Proof.
  split; [reflexivity|]. split; [reflexivity|].
  destruct (generated_leads_are_placeholders (empty_store 0) demo_request
              eq_refl demo_room eq_refl)
    as (r & s' & created & Hrun & Hlead & _ & _ & Hphone & _ & _ & _ & d & Hd & Hname & Hmail).
  exists r, s', d. rewrite Hlead. cbn [empty_store lead app]. rewrite Hphone.
  repeat split; assumption || reflexivity.
Defined.

Lemma auth_is_idempotent_on_email_witness :
  reachable (empty_store 0) /\
  exists r s',
    login (mkLoginRequest "ada@example.com" "one") (Some (empty_store 0)) = (Return r, Some s') /\
    login (mkLoginRequest "ada@example.com" "two") (Some s') = (Return r, Some s') /\
    List.length (users_with "ada@example.com" s') = 1%nat.
Proof.
  assert (Hr : reachable (empty_store 0)) by (apply reach_init; vm_compute; discriminate).
  split; [exact Hr|].
  assert (Hlt : next_oid (empty_store 0) < Oid.limit) by reflexivity.
  exact (proj1 (auth_is_idempotent_on_email (empty_store 0) "ada@example.com" Hr Hlt)
           "one" "two").
Defined.

Lemma ready_jobs_count_their_leads_witness :
  reachable demo_store /\
  In (0, set_ready 10 (new_job demo_request)) (leadjob demo_store) /\
  result_count (set_ready 10 (new_job demo_request)) =
    Z.of_nat (List.length (leads_of (Oid.str 0) demo_store)).
Proof.
  split; [exact demo_reachable|].
  assert (Hin : In (0, set_ready 10 (new_job demo_request)) (leadjob demo_store))
    by (left; reflexivity).
  split; [exact Hin|].
  exact (ready_jobs_count_their_leads demo_store 0 _ demo_reachable Hin eq_refl).
Defined.

Lemma get_lead_results_sound_witness :
  Oid.ObjectId "000000000000000000000000" = Some 0 /\
  exists leads,
    get_lead_results "000000000000000000000000" (Some demo_store)
      = (Return leads, Some demo_store) /\
    (List.length leads <= 200)%nat /\
    Forall (fun l => job_id (out_lead l) = "000000000000000000000000") leads.
Proof.
  split; [reflexivity|].
  destruct (get_lead_results_sound demo_store "000000000000000000000000" 0 eq_refl)
    as (leads & Hrun & Hlen & Hall & _).
  exists leads. repeat split; assumption.
Defined.

Lemma get_lead_results_unknown_is_empty_witness :
  Oid.ObjectId "000000000000000000000001" = Some 1 /\
  leads_of "000000000000000000000001" demo_store = [] /\
  store_ok demo_store = true /\
  find (Db.by_id 1) (leadjob demo_store) = None /\
  get_lead_results "000000000000000000000001" (Some demo_store)
    = (Return [], Some demo_store).
Proof.
  split; [reflexivity|]. split; [reflexivity|].
  split; [reflexivity|]. split; [reflexivity|].
  exact (proj2 (get_lead_results_unknown_is_empty demo_store
                  "000000000000000000000001" 1 eq_refl) eq_refl eq_refl).
Defined.

End Demo.

(* ================================================================== *)
(** ** Beyond the claims: availability, reads, spelling of identifiers *)
(* ================================================================== *)

Section Reads.
Local Open Scope N_scope.

(** X1.  Without a configured store every handler that needs it raises
    [HTTPException] 500 [Database not available] before doing anything
    else, and the handle stays unset. *)
Theorem handlers_need_the_store lp gp t rp :
  let down := HTTPException 500 "Database not available" in
  login lp None = (Raise down, None) /\
  google_auth gp None = (Raise down, None) /\
  me t None = (Raise down, None) /\
  request_leads rp None = (Raise down, None) /\
  get_lead_status t None = (Raise down, None) /\
  get_lead_results t None = (Raise down, None).
Proof. cbv zeta. repeat split. Qed.

(** X2.  The three GET handlers never write: whatever the identifier
    and whatever they answer, the store handle is left as it was. *)
Theorem reads_leave_the_store_alone t db :
  snd (me t db) = db /\
  snd (get_lead_status t db) = db /\
  snd (get_lead_results t db) = db.
Proof.
  destruct db as [s|]; [|repeat split].
  rewrite me_after, get_lead_status_after, get_lead_results_after.
  repeat split.
Qed.

Lemma find_by_id_In {D} o (d : D) (l : list (Oid.oid * D)) :
  In (o, d) l -> exists x, find (Db.by_id o) l = Some x /\ fst x = o /\ In x l.
Proof.
  intros Hin. destruct (find (Db.by_id o) l) as [x|] eqn:E.
  - exists x. apply find_some in E. destruct E as [Hx Hid].
    apply by_id_true in Hid. auto.
  - apply (find_none _ _ E) in Hin. unfold Db.by_id in Hin. cbn [fst] in Hin.
    rewrite N.eqb_refl in Hin. discriminate.
Qed.

Lemma get_lead_status_run s t o x :
  Oid.ObjectId t = Some o -> find (Db.by_id o) (leadjob s) = Some x ->
  get_lead_status t (Some s) =
    (Return (mkStatusResponse (status (snd x)) (result_count (snd x))), Some s).
Proof. intros Ho Hf. run_handler. rewrite Ho. cbn. rewrite Hf. reflexivity. Qed.

Lemma me_run s t o x :
  Oid.ObjectId t = Some o -> find (Db.by_id o) (user s) = Some x ->
  me t (Some s) = (Return (user_info x), Some s).
Proof. intros Ho Hf. run_handler. rewrite Ho. cbn. rewrite Hf. reflexivity. Qed.

(** In a well-kept store only the canonical spelling of an identifier
    is ever referenced by a lead. *)
Lemma leads_use_canonical_spelling s t o :
  store_ok s = true -> Oid.ObjectId t = Some o -> t <> Oid.str o ->
  leads_of t s = [].
Proof.
  intros Hok Ho Hne. apply store_ok_parts in Hok.
  destruct Hok as (Hlim & _ & Hjobs & _ & Href).
  apply filter_none. intros d Hd.
  destruct (by_job_id t (snd d)) eqn:E; [|reflexivity].
  apply by_job_id_true in E.
  rewrite forallb_forall in Href. apply Href in Hd.
  apply refers_to_job_In in Hd. destruct Hd as (o' & j & Hin & Eo).
  pose proof (proj1 (ids_below_In _ _) Hjobs _ Hin) as Hlt. cbn [fst] in Hlt.
  assert (Eq : Oid.ObjectId t = Some o').
  { rewrite <- E, Eo. apply OidFacts.ObjectId_str. lia. }
  assert (o' = o) by congruence. subst o'. congruence.
Qed.

(** X3.  [get_lead_status] looks a job up by the value of the
    identifier, [get_lead_results] by its spelling.  In a well-kept
    store, for any accepted spelling of a job's identifier other than
    the lower-case one the store hands out, the status route finds the
    job while the results route returns no lead at all. *)
Theorem results_need_the_canonical_spelling s t o j :
  store_ok s = true ->
  Oid.ObjectId t = Some o ->
  t <> Oid.str o ->
  In (o, j) (leadjob s) ->
  (exists st, get_lead_status t (Some s) = (Return st, Some s)) /\
  get_lead_results t (Some s) = (Return [], Some s).
Proof.
  intros Hok Ho Hne Hin. split.
  - destruct (find_by_id_In o j (leadjob s) Hin) as (x & Hf & _).
    eexists. apply (get_lead_status_run s t o x Ho Hf).
  - rewrite (get_lead_results_run s t o Ho).
    rewrite (leads_use_canonical_spelling s t o Hok Ho Hne). reflexivity.
Qed.

Lemma results_need_the_canonical_spelling_witness :
  store_ok lettered_store = true /\
  Oid.ObjectId "00000000000000000000000A" = Some 10 /\
  "00000000000000000000000A" <> Oid.str 10 /\
  List.length (leads_of (Oid.str 10) lettered_store) = 10%nat /\
  (exists st, get_lead_status "00000000000000000000000A" (Some lettered_store)
                = (Return st, Some lettered_store)) /\
  get_lead_results "00000000000000000000000A" (Some lettered_store)
    = (Return [], Some lettered_store).
Proof.
  split; [reflexivity|]. split; [reflexivity|].
  assert (Hne : "00000000000000000000000A" <> Oid.str 10) by (vm_compute; discriminate).
  split; [exact Hne|]. split; [reflexivity|].
  apply (results_need_the_canonical_spelling lettered_store
           "00000000000000000000000A" 10 (set_ready 10 (new_job demo_request))
           eq_refl eq_refl Hne).
  left. reflexivity.
Defined.

End Reads.

(* ================================================================== *)
(** ** Beyond the claims: what a request can do to the store *)
(* ================================================================== *)

Section Growth.
Local Open Scope N_scope.

(** Every way [request_leads] can end on a well-kept store: nothing
    written; a job left in [processing] with some leads; or the job
    [ready] with its ten leads. *)
Lemma request_leads_shape payload s :
  store_ok s = true -> LeadRequest_valid payload = true ->
  exists res s',
    request_leads payload (Some s) = (res, Some s') /\
    ((s' = s /\ exists e, res = Raise e) \/
     exists j (extra : list (Oid.oid * Lead)) n,
       s' = with_job j extra n s /\
       next_oid s < Oid.limit /\ next_oid s < n /\ n <= Oid.limit /\
       Forall (fun d => job_id (snd d) = Oid.str (next_oid s) /\ fst d < n) extra /\
       ((res = Return (mkLeadResponse (Oid.str (next_oid s)) "processing" notice) /\
         j = set_ready 10 (new_job payload) /\ List.length extra = 10%nat) \/
        ((exists e, res = Raise e) /\ j = new_job payload))).
Proof.
  intros Hok Hvalid. destruct (valid_keywords payload Hvalid) as (k & ks & Hk).
  pose proof (store_ok_parts s Hok) as (_ & _ & Hj & _ & _).
  unfold request_leads. unfold bind at 1. cbn [require_db]. unfold bind at 1.
  destruct (N.lt_ge_cases (next_oid s) Oid.limit) as [Hlt|Hge].
  2:{ rewrite create_document_full by exact Hge.
      exists (Raise (Exception "Store write failed")), s.
      split; [reflexivity|]. left. split; [reflexivity|]. eauto. }
  rewrite create_document_run by exact Hlt. unfold bind at 1.
  destruct (generate_frame payload k ks Hk (Oid.str (next_oid s)) (seq 1 10) []
              (Db.bump (Db.put_docs Db.leadjob_c
                 (Db.docs Db.leadjob_c s ++ [(next_oid s, new_job payload)])%list s)))
    as (extra & n & Hs & Hn & Hlim & Hall & Hlen).
  fold (new_job payload).
  destruct (generate payload (Oid.str (next_oid s)) (seq 1 10) [] _) as [[ls|e] db'].
  - cbn [fst snd] in Hs, Hlen. subst db'. destruct (Hlen ls eq_refl) as [He Hls].
    unfold bind at 1. unfold ObjectId. rewrite OidFacts.ObjectId_str by exact Hlt.
    unfold bind, ret, Db.update_one. store_simpl.
    rewrite update_first_fresh by exact Hj.
    cbn [List.length Nat.add] in Hls, He. rewrite Hls.
    eexists _, _. split; [reflexivity|]. right.
    exists (set_ready 10 (new_job payload)), extra, n.
    split; [reflexivity|]. split; [exact Hlt|]. split; [lia|].
    split; [apply Hlim; lia|]. split; [exact Hall|].
    left. split; [reflexivity|]. split; [reflexivity | exact He].
  - cbn [fst snd] in Hs. subst db'. store_simpl.
    eexists _, _. split; [reflexivity|]. right.
    exists (new_job payload), extra, n.
    split; [reflexivity|]. split; [exact Hlt|]. split; [lia|].
    split; [apply Hlim; lia|]. split; [exact Hall|].
    right. split; [eauto | reflexivity].
Qed.

Lemma grows_refl {A} (l : list A) : grows_from l l.
Proof. exists []. rewrite app_nil_r. reflexivity. Qed.

Lemma grows_app {A} (l more : list A) : grows_from l (l ++ more).
Proof. exists more. reflexivity. Qed.

Lemma authenticate_run a s :
  store_ok s = true ->
  exists u,
    user_email u = auth_email a /\
    authenticate a (Some s) =
      match find (Db.by_email (auth_email a)) (user s) with
      | Some x => (Return (mkAuthResponse (Oid.str (fst x)) (user_info x)), Some s)
      | None =>
          if Oid.limit <=? next_oid s
          then (Raise (Exception "Store write failed"), Some s)
          else (Return (mkAuthResponse (Oid.str (next_oid s)) (user_info (next_oid s, u))),
                Some (with_user u s))
      end.
Proof.
  intros Hok. destruct a as [p|p]; cbn [authenticate auth_email].
  - eexists (User_new (login_email p) None (Some "demo") "password").
    split; [reflexivity|]. apply (login_run p s Hok).
  - eexists (User_new (google_email p) (Some (name_or_empty (google_name p))) None "google").
    split; [reflexivity|]. apply (google_auth_run p s Hok).
Qed.

(** The store a request leaves on a well-kept store, case by case. *)
Lemma after_shape r s :
  store_ok s = true ->
  exists s', after r (Some s) = Some s' /\
    (s' = s \/
     (exists u, s' = with_user u s /\ next_oid s < Oid.limit /\
                find (Db.by_email (user_email u)) (user s) = None) \/
     (exists j (extra : list (Oid.oid * Lead)) n,
        s' = with_job j extra n s /\
        next_oid s < Oid.limit /\ next_oid s < n /\ n <= Oid.limit /\
        Forall (fun d => job_id (snd d) = Oid.str (next_oid s) /\ fst d < n) extra /\
        ((status j = "ready" /\ result_count j = 10%Z /\ List.length extra = 10%nat) \/
         (status j = "processing" /\ result_count j = 0%Z)))).
Proof.
  intros Hok.
  assert (Hauth : forall a, exists s', snd (authenticate a (Some s)) = Some s' /\
            (s' = s \/ exists u, s' = with_user u s /\ next_oid s < Oid.limit /\
                         find (Db.by_email (user_email u)) (user s) = None)).
  { intros a. destruct (authenticate_run a s Hok) as (u & Hu & ->).
    destruct (find (Db.by_email (auth_email a)) (user s)) as [x|] eqn:E.
    - exists s. split; [reflexivity | left; reflexivity].
    - destruct (N.leb_spec Oid.limit (next_oid s)) as [Hge|Hlt].
      + exists s. split; [reflexivity | left; reflexivity].
      + eexists. split; [reflexivity|]. right. exists u.
        rewrite Hu. auto. }
  destruct r as [p|p|t|p|t|t]; cbn [after].
  - destruct (Hauth (ViaLogin p)) as (s' & E & H). exists s'.
    split; [exact E|]. destruct H as [H|H]; [left | right; left]; exact H.
  - destruct (Hauth (ViaGoogle p)) as (s' & E & H). exists s'.
    split; [exact E|]. destruct H as [H|H]; [left | right; left]; exact H.
  - rewrite me_after. eauto.
  - destruct (LeadRequest_valid p) eqn:V; [|eauto].
    destruct (request_leads_shape p s Hok V) as (res & s' & Hrun & Hcase).
    rewrite Hrun. cbn [snd]. exists s'. split; [reflexivity|].
    destruct Hcase as [[-> _]|(j & extra & n & -> & H1 & H2 & H3 & H4 & H5)]; [auto|].
    right. right. exists j, extra, n.
    split; [reflexivity|]. split; [exact H1|]. split; [exact H2|].
    split; [exact H3|]. split; [exact H4|].
    destruct H5 as [(_ & -> & Hlen)|(_ & ->)]; [left | right]; auto.
  - rewrite get_lead_status_after. eauto.
  - rewrite get_lead_results_after. eauto.
Qed.

(** X4.  No request deletes or rewrites a record of a well-kept store:
    whatever the request and its answer, the store stays configured and
    each of the three collections is the old one with records appended
    at the end. *)
Theorem requests_only_append r s :
  store_ok s = true ->
  exists s',
    after r (Some s) = Some s' /\
    grows_from (user s) (user s') /\
    grows_from (leadjob s) (leadjob s') /\
    grows_from (lead s) (lead s').
Proof.
  intros Hok. destruct (after_shape r s Hok) as (s' & Hrun & Hcase).
  exists s'. split; [exact Hrun|].
  destruct Hcase as [->|[(u & -> & _)|(j & extra & n & -> & _)]];
    unfold with_user, with_job; store_simpl;
    repeat split; try apply grows_refl; apply grows_app.
Qed.

Lemma requests_only_append_witness :
  store_ok demo_store = true /\
  exists s',
    after (PostLeads demo_request) (Some demo_store) = Some s' /\
    grows_from (leadjob demo_store) (leadjob s') /\
    grows_from (lead demo_store) (lead s').
Proof.
  split; [reflexivity|].
  destruct (requests_only_append (PostLeads demo_request) demo_store eq_refl)
    as (s' & Hrun & _ & Hj & Hl).
  exists s'. auto.
Defined.

End Growth.

(* ================================================================== *)
(** ** Beyond the claims: what holds in every reachable store *)
(* ================================================================== *)

Section Reached.
Local Open Scope N_scope.

Lemma ids_fresh {D} n (l : list (Oid.oid * D)) :
  ids_below n l = true -> ~ In n (map fst l).
Proof.
  intros H Hin. apply in_map_iff in Hin. destruct Hin as (d & E & Hd).
  apply (proj1 (ids_below_In n l) H) in Hd. lia.
Qed.

Lemma NoDup_ids_snoc {D} n (d : D) (l : list (Oid.oid * D)) :
  ids_below n l = true -> NoDup (map fst l) -> NoDup (map fst (l ++ [(n, d)])).
Proof.
  intros Hb Hnd. rewrite map_app. apply NoDup_app.
  - exact Hnd.
  - cbn. constructor; [intros [] | constructor].
  - intros a Ha [<-|[]]. exact (ids_fresh n l Hb Ha).
Qed.

Lemma same_id_same_record {D} (l : list (Oid.oid * D)) o a b :
  NoDup (map fst l) -> In (o, a) l -> In (o, b) l -> a = b.
Proof.
  induction l as [|[o' x] l IH]; intros Hnd Ha Hb; [contradiction|].
  cbn [map fst] in Hnd. inversion Hnd as [|? ? Hnotin Hnd']. subst.
  destruct Ha as [Ha|Ha]; destruct Hb as [Hb|Hb].
  - congruence.
  - injection Ha as -> ->. exfalso. apply Hnotin.
    apply (in_map fst) in Hb. exact Hb.
  - injection Hb as -> ->. exfalso. apply Hnotin.
    apply (in_map fst) in Ha. exact Ha.
  - exact (IH Hnd' Ha Hb).
Qed.

Lemma find_by_id_member {D} (l : list (Oid.oid * D)) o d :
  NoDup (map fst l) -> In (o, d) l -> find (Db.by_id o) l = Some (o, d).
Proof.
  intros Hnd Hin. destruct (find_by_id_In o d l Hin) as ([o' x] & Hf & Ho & Hx).
  cbn [fst] in Ho. subst o'. rewrite Hf. f_equal. f_equal.
  exact (same_id_same_record l o x d Hnd Hx Hin).
Qed.

Lemma reachable_store_ok s : reachable s -> store_ok s = true.
Proof. intros Hr. apply (reachable_invariant s Hr). Qed.

(** Jobs follow their life cycle and users have distinct identifiers. *)
Lemma reachable_records s :
  reachable s -> job_lifecycle s /\ NoDup (map fst (user s)).
Proof.
  induction 1 as [n Hn | s r s' Hr [Hlife Hnd] Hstep].
  - split; [intros o j [] | constructor].
  - pose proof (reachable_store_ok s Hr) as Hok.
    pose proof (store_ok_parts s Hok) as (_ & Hu & _).
    destruct (after_shape r s Hok) as (s1 & Hrun & Hcase).
    assert (s1 = s') by congruence. subst s1.
    destruct Hcase as [->|[(u & -> & _)|(j & extra & n & -> & _ & _ & _ & _ & Hj)]].
    + auto.
    + split; [exact Hlife|]. unfold with_user. store_simpl.
      apply NoDup_ids_snoc; assumption.
    + split; [|exact Hnd]. intros o j' Hin. unfold with_job in Hin. store_simpl.
      apply in_app_or in Hin. destruct Hin as [Hin|[Hin|[]]].
      * exact (Hlife o j' Hin).
      * injection Hin as <- <-.
        destruct Hj as [(Hs & Hc & _)|(Hs & Hc)]; [right | left]; auto.
Qed.

(** X5.  In every reachable store a job is either [processing] with
    count 0 or [ready] with count 10; no request ever produces the
    status [failed] that the schema mentions. *)
Theorem jobs_are_processing_or_ready s o j :
  reachable s ->
  In (o, j) (leadjob s) ->
  ((status j = "processing" /\ result_count j = 0%Z) \/
   (status j = "ready" /\ result_count j = 10%Z)) /\
  status j <> "failed".
Proof.
  intros Hr Hin. destruct (reachable_records s Hr) as [Hlife _].
  pose proof (Hlife o j Hin) as H. split; [exact H|].
  destruct H as [[-> _]|[-> _]]; discriminate.
Qed.

Lemma jobs_are_processing_or_ready_witness :
  reachable demo_store /\
  In (0, set_ready 10 (new_job demo_request)) (leadjob demo_store) /\
  status (set_ready 10 (new_job demo_request)) <> "failed".
Proof.
  assert (Hin : In (0, set_ready 10 (new_job demo_request)) (leadjob demo_store))
    by (left; reflexivity).
  split; [exact demo_reachable|]. split; [exact Hin|].
  exact (proj2 (jobs_are_processing_or_ready demo_store 0 _ demo_reachable Hin)).
Defined.

(** X6.  In every reachable store each lead references an existing
    job: [get_lead_status] on the [job_id] of any stored lead returns a
    status instead of raising. *)
Theorem every_lead_has_its_job s i l :
  reachable s ->
  In (i, l) (lead s) ->
  exists o st,
    Oid.ObjectId (job_id l) = Some o /\
    In o (map fst (leadjob s)) /\
    get_lead_status (job_id l) (Some s) = (Return st, Some s).
Proof.
  intros Hr Hin. pose proof (reachable_store_ok s Hr) as Hok.
  pose proof (store_ok_parts s Hok) as (Hlim & _ & Hjobs & _ & Href).
  rewrite forallb_forall in Href. apply Href in Hin. cbn [snd] in Hin.
  apply refers_to_job_In in Hin. destruct Hin as (o & j & Hj & E).
  pose proof (proj1 (ids_below_In _ _) Hjobs _ Hj) as Hlt. cbn [fst] in Hlt.
  assert (Ho : Oid.ObjectId (job_id l) = Some o)
    by (rewrite E; apply OidFacts.ObjectId_str; lia).
  destruct (find_by_id_In o j (leadjob s) Hj) as (x & Hf & _).
  exists o. eexists. split; [exact Ho|]. split.
  - apply (in_map fst) in Hj. exact Hj.
  - apply (get_lead_status_run s (job_id l) o x Ho Hf).
Qed.

Lemma every_lead_has_its_job_witness :
  reachable demo_store /\
  exists i l o st,
    In (i, l) (lead demo_store) /\
    Oid.ObjectId (job_id l) = Some o /\
    get_lead_status (job_id l) (Some demo_store) = (Return st, Some demo_store).
Proof.
  split; [exact demo_reachable|].
  assert (Hin : In (1, placeholder demo_request (Oid.str 0) "SaaS" 1) (lead demo_store))
    by (left; reflexivity).
  destruct (every_lead_has_its_job demo_store 1 _ demo_reachable Hin)
    as (o & st & Ho & _ & Hrun).
  eexists 1, _, o, st. split; [exact Hin|]. split; assumption.
Defined.

(** X7.  Used one request after the other, the API never stores two
    users under one email. *)
Theorem one_user_per_email s e :
  reachable s -> (List.length (users_with e s) <= 1)%nat.
Proof. intros Hr. destruct (reachable_invariant s Hr) as (_ & _ & Hu). apply Hu. Qed.

Lemma one_user_per_email_witness :
  exists s,
    reachable s /\ (List.length (users_with "ada@example.com" s) <= 1)%nat /\
    users_with "ada@example.com" s <> [].
Proof.
  assert (Hr0 : reachable (empty_store 0)) by (apply reach_init; vm_compute; discriminate).
  pose (p := mkLoginRequest "ada@example.com" "one").
  assert (Hr : reachable (with_user (User_new "ada@example.com" None (Some "demo") "password")
                            (empty_store 0))).
  { apply (reach_step (empty_store 0) (PostLogin p)); [exact Hr0 | reflexivity]. }
  eexists. split; [exact Hr|]. split.
  - exact (one_user_per_email _ "ada@example.com" Hr).
  - vm_compute. discriminate.
Defined.

Lemma results_belong_to_job s t :
  Forall (fun l => job_id (out_lead l) = t)
    (map (fun l => mkLeadOut (Oid.str (fst l)) (snd l)) (firstn 200 (leads_of t s))).
Proof.
  apply Forall_forall. intros l Hl. apply in_map_iff in Hl.
  destruct Hl as ([i d] & <- & Hin). apply In_firstn in Hin.
  apply filter_In in Hin. destruct Hin as [_ Hj].
  apply by_job_id_true in Hj. exact Hj.
Qed.

(** X8.  In every reachable store, when [get_lead_status] reports a job
    [ready] for an identifier string, whatever its spelling, the count
    is 10, and [get_lead_results] on the lower-case spelling of that
    identifier (the [job_id] that [request_leads] returned) gives
    exactly 10 leads, all of that job; on any other spelling it gives
    the empty list. *)
Theorem ready_status_means_ten_results s t c db' :
  reachable s ->
  get_lead_status t (Some s) = (Return (mkStatusResponse "ready" c), db') ->
  c = 10%Z /\
  exists o leads,
    Oid.ObjectId t = Some o /\
    get_lead_results (Oid.str o) (Some s) = (Return leads, Some s) /\
    List.length leads = 10%nat /\
    Forall (fun l => job_id (out_lead l) = Oid.str o) leads /\
    (t <> Oid.str o -> get_lead_results t (Some s) = (Return [], Some s)).
Proof.
  intros Hr Hst.
  pose proof (reachable_store_ok s Hr) as Hok.
  pose proof (store_ok_parts s Hok) as (Hlim & _ & Hjobs & _ & _).
  destruct (reachable_invariant s Hr) as (_ & Hready & _).
  destruct (reachable_records s Hr) as [Hlife _].
  destruct (Oid.ObjectId t) as [o|] eqn:Ho.
  2:{ revert Hst. run_handler. rewrite Ho. discriminate. }
  destruct (find (Db.by_id o) (leadjob s)) as [[o' j]|] eqn:Hf.
  2:{ rewrite (get_lead_status_unknown s t o Ho Hf) in Hst. discriminate. }
  rewrite (get_lead_status_run s t o _ Ho Hf) in Hst. cbn [snd] in Hst.
  injection Hst as Hs Hc _.
  apply find_some in Hf. destruct Hf as [Hin Hid].
  apply by_id_true in Hid. cbn [fst] in Hid. subst o'.
  pose proof (proj1 (ids_below_In _ _) Hjobs _ Hin) as Hlt. cbn [fst] in Hlt.
  assert (Hparse : Oid.ObjectId (Oid.str o) = Some o)
    by (apply OidFacts.ObjectId_str; lia).
  pose proof (Hready o j Hin Hs) as Hcount.
  destruct (Hlife o j Hin) as [[Hp _]|[_ Hten]]; [rewrite Hp in Hs; discriminate|].
  split; [congruence|].
  assert (Hlen : List.length (leads_of (Oid.str o) s) = 10%nat) by lia.
  exists o. eexists. split; [reflexivity|].
  split; [apply (get_lead_results_run s _ o Hparse)|]. split; [|split].
  - rewrite length_map, length_firstn, Hlen. reflexivity.
  - apply results_belong_to_job.
  - intros Hne. rewrite (get_lead_results_run s t o Ho).
    rewrite (leads_use_canonical_spelling s t o Hok Ho Hne). reflexivity.
Qed.

Lemma lettered_reachable : reachable lettered_store.
Proof.
  apply (reach_step (empty_store 10) (PostLeads demo_request)).
  - apply reach_init. vm_compute. discriminate.
  - reflexivity.
Defined.

Lemma ready_status_means_ten_results_witness :
  reachable lettered_store /\
  get_lead_status "00000000000000000000000A" (Some lettered_store)
    = (Return (mkStatusResponse "ready" 10), Some lettered_store) /\
  exists leads,
    get_lead_results "00000000000000000000000a" (Some lettered_store)
      = (Return leads, Some lettered_store) /\
    List.length leads = 10%nat /\
    get_lead_results "00000000000000000000000A" (Some lettered_store)
      = (Return [], Some lettered_store).
Proof.
  split; [exact lettered_reachable|].
  assert (Hst : get_lead_status "00000000000000000000000A" (Some lettered_store)
                = (Return (mkStatusResponse "ready" 10), Some lettered_store))
    by reflexivity.
  split; [exact Hst|].
  destruct (ready_status_means_ten_results lettered_store _ 10 _ lettered_reachable Hst)
    as (_ & o & leads & Ho & Hrun & Hlen & _ & Hother).
  assert (o = 10%N) by (vm_compute in Ho; congruence). subst o.
  exists leads. split; [exact Hrun|]. split; [exact Hlen|].
  apply Hother. vm_compute. discriminate.
Defined.

End Reached.

(* ================================================================== *)
(** ** Beyond the claims: tokens *)
(* ================================================================== *)

Section Tokens.
Local Open Scope N_scope.

Lemma reachable_authenticate a s res s' :
  reachable s -> authenticate a (Some s) = (res, Some s') -> reachable s'.
Proof.
  intros Hr Hrun. destruct a as [p|p]; cbn [authenticate] in Hrun.
  - apply (reach_step s (PostLogin p)); [exact Hr|]. cbn [after]. rewrite Hrun. reflexivity.
  - apply (reach_step s (PostGoogle p)); [exact Hr|]. cbn [after]. rewrite Hrun. reflexivity.
Qed.

Lemma authenticate_keeps_users a s res s' :
  store_ok s = true ->
  authenticate a (Some s) = (res, Some s') ->
  grows_from (user s) (user s').
Proof.
  intros Hok Hrun. destruct (authenticate_run a s Hok) as (u & _ & E).
  rewrite E in Hrun. clear E.
  destruct (find (Db.by_email (auth_email a)) (user s)) as [x|].
  - injection Hrun as _ <-. apply grows_refl.
  - destruct (N.leb_spec Oid.limit (next_oid s)) as [Hge|Hlt];
      injection Hrun as _ <-; [apply grows_refl | apply grows_app].
Qed.

(** A sign-in that returns hands out the identifier of a stored user
    registered under the email of the request. *)
Lemma authenticate_returns a s r s' :
  store_ok s = true ->
  authenticate a (Some s) = (Return r, Some s') ->
  exists o u,
    In (o, u) (user s') /\ user_email u = auth_email a /\
    r = mkAuthResponse (Oid.str o) (user_info (o, u)).
Proof.
  intros Hok Hrun. destruct (authenticate_run a s Hok) as (u & Hu & E).
  rewrite E in Hrun. clear E.
  destruct (find (Db.by_email (auth_email a)) (user s)) as [[o x]|] eqn:Hf.
  - injection Hrun as <- <-. apply find_some in Hf. destruct Hf as [Hin He].
    unfold Db.by_email in He. cbn [snd] in He. apply String.eqb_eq in He.
    exists o, x. auto.
  - destruct (N.leb_spec Oid.limit (next_oid s)) as [Hge|Hlt]; [discriminate|].
    injection Hrun as <- <-. exists (next_oid s), u.
    split; [|auto]. unfold with_user. store_simpl.
    apply in_or_app. right. left. reflexivity.
Qed.

Lemma me_of_member s o u :
  store_ok s = true -> NoDup (map fst (user s)) -> In (o, u) (user s) ->
  me (Oid.str o) (Some s) = (Return (user_info (o, u)), Some s).
Proof.
  intros Hok Hnd Hin. pose proof (store_ok_parts s Hok) as (Hlim & Hu & _).
  pose proof (proj1 (ids_below_In _ _) Hu _ Hin) as Hlt. cbn [fst] in Hlt.
  apply (me_run s (Oid.str o) o).
  - apply OidFacts.ObjectId_str. lia.
  - apply find_by_id_member; assumption.
Qed.

(** X9.  The token a sign-in returns is accepted by [me] right away,
    and [me] answers the very user data of the sign-in response, under
    the email that was signed in. *)
Theorem me_accepts_the_issued_token a s r s' :
  reachable s ->
  authenticate a (Some s) = (Return r, Some s') ->
  me (token r) (Some s') = (Return (auth_user r), Some s') /\
  info_email (auth_user r) = auth_email a.
Proof.
  intros Hr Hrun.
  pose proof (reachable_authenticate a s _ s' Hr Hrun) as Hr'.
  destruct (authenticate_returns a s r s' (reachable_store_ok s Hr) Hrun)
    as (o & u & Hin & He & ->).
  cbn [token auth_user user_info info_email snd]. split; [|exact He].
  apply me_of_member;
    [exact (reachable_store_ok s' Hr') | apply (reachable_records s' Hr') | exact Hin].
Qed.

Lemma me_accepts_the_issued_token_witness :
  exists r s',
    reachable (empty_store 0) /\
    authenticate (ViaGoogle (mkGoogleAuthRequest "ada@example.com" None))
      (Some (empty_store 0)) = (Return r, Some s') /\
    me (token r) (Some s') = (Return (auth_user r), Some s') /\
    info_email (auth_user r) = "ada@example.com".
Proof.
  assert (Hr : reachable (empty_store 0)) by (apply reach_init; vm_compute; discriminate).
  eexists _, _. split; [exact Hr|].
  assert (Hrun : authenticate (ViaGoogle (mkGoogleAuthRequest "ada@example.com" None))
                   (Some (empty_store 0))
                 = (Return (mkAuthResponse (Oid.str 0)
                              (mkUserInfo "ada@example.com" (Some EmptyString))),
                    Some (with_user (User_new "ada@example.com" (Some EmptyString) None "google")
                            (empty_store 0))))
    by reflexivity.
  split; [exact Hrun|].
  exact (me_accepts_the_issued_token _ _ _ _ Hr Hrun).
Defined.

(** X10.  Accounts are shared between the two sign-in routes: in a
    reachable store with an identifier left, two sign-ins with the same
    email, through either route and with any password or name, return
    the same response and token, and the second writes nothing. *)
Theorem sign_in_routes_share_accounts a1 a2 s :
  reachable s ->
  next_oid s < Oid.limit ->
  auth_email a1 = auth_email a2 ->
  exists r s',
    authenticate a1 (Some s) = (Return r, Some s') /\
    authenticate a2 (Some s') = (Return r, Some s').
Proof.
  intros Hr Hlt Hsame. pose proof (reachable_invariant s Hr) as Hinv.
  pose proof Hinv as (Hok & _ & _).
  destruct (authenticate_run a1 s Hok) as (u1 & Hu1 & E1). rewrite E1. clear E1.
  destruct (find (Db.by_email (auth_email a1)) (user s)) as [x|] eqn:Hf.
  - eexists _, s. split; [reflexivity|].
    destruct (authenticate_run a2 s Hok) as (u2 & _ & E2). rewrite E2.
    rewrite <- Hsame, Hf. reflexivity.
  - destruct (N.leb_spec Oid.limit (next_oid s)) as [Hge|_]; [lia|].
    rewrite <- Hu1 in Hf.
    pose proof (invariant_with_user s u1 Hinv Hlt Hf) as (Hok' & _ & _).
    destruct (lookup_after_insert s u1 Hf) as [Hfind _].
    eexists _, _. split; [reflexivity|].
    destruct (authenticate_run a2 _ Hok') as (u2 & _ & E2). rewrite E2.
    rewrite <- Hsame, <- Hu1, Hfind. reflexivity.
Qed.

Lemma sign_in_routes_share_accounts_witness :
  reachable (empty_store 0) /\
  exists r s',
    google_auth (mkGoogleAuthRequest "ada@example.com" (Some "Ada")) (Some (empty_store 0))
      = (Return r, Some s') /\
    login (mkLoginRequest "ada@example.com" "guess") (Some s') = (Return r, Some s').
Proof.
  assert (Hr : reachable (empty_store 0)) by (apply reach_init; vm_compute; discriminate).
  split; [exact Hr|].
  assert (Hlt : next_oid (empty_store 0) < Oid.limit) by reflexivity.
  exact (sign_in_routes_share_accounts
           (ViaGoogle (mkGoogleAuthRequest "ada@example.com" (Some "Ada")))
           (ViaLogin (mkLoginRequest "ada@example.com" "guess"))
           (empty_store 0) Hr Hlt eq_refl).
Defined.

(** X11.  Two sign-ins, one after the other, under different emails
    never return the same token. *)
Theorem different_emails_different_tokens a1 a2 s r1 s1 r2 s2 :
  reachable s ->
  authenticate a1 (Some s) = (Return r1, Some s1) ->
  authenticate a2 (Some s1) = (Return r2, Some s2) ->
  auth_email a1 <> auth_email a2 ->
  token r1 <> token r2.
Proof.
  intros Hr Hrun1 Hrun2 Hne Htok.
  pose proof (reachable_authenticate a1 s _ s1 Hr Hrun1) as Hr1.
  pose proof (reachable_authenticate a2 s1 _ s2 Hr1 Hrun2) as Hr2.
  destruct (authenticate_returns a1 s r1 s1 (reachable_store_ok s Hr) Hrun1)
    as (o1 & u1 & Hin1 & He1 & ->).
  destruct (authenticate_returns a2 s1 r2 s2 (reachable_store_ok s1 Hr1) Hrun2)
    as (o2 & u2 & Hin2 & He2 & ->).
  cbn [token] in Htok.
  assert (Hin1' : In (o1, u1) (user s2)).
  { destruct (authenticate_keeps_users a2 s1 _ s2 (reachable_store_ok s1 Hr1) Hrun2)
      as [more Hgrow].
    rewrite Hgrow. apply in_or_app. left. exact Hin1. }
  pose proof (store_ok_parts s2 (reachable_store_ok s2 Hr2)) as (Hlim & Hu & _).
  pose proof (proj1 (ids_below_In _ _) Hu _ Hin1') as Hlt1.
  pose proof (proj1 (ids_below_In _ _) Hu _ Hin2) as Hlt2. cbn [fst] in Hlt1, Hlt2.
  apply OidFacts.str_inj in Htok; [|lia|lia]. subst o2.
  assert (u1 = u2)
    by exact (same_id_same_record (user s2) o1 u1 u2 (proj2 (reachable_records s2 Hr2)) Hin1' Hin2).
  subst u2. congruence.
Qed.

Lemma different_emails_different_tokens_witness :
  exists r1 s1 r2 s2,
    login (mkLoginRequest "ada@example.com" "one") (Some (empty_store 0)) = (Return r1, Some s1) /\
    login (mkLoginRequest "bob@example.com" "one") (Some s1) = (Return r2, Some s2) /\
    token r1 <> token r2.
Proof.
  assert (Hr : reachable (empty_store 0)) by (apply reach_init; vm_compute; discriminate).
  eexists _, _, _, _.
  assert (H1 : authenticate (ViaLogin (mkLoginRequest "ada@example.com" "one"))
                 (Some (empty_store 0))
               = (Return (mkAuthResponse (Oid.str 0) (mkUserInfo "ada@example.com" None)),
                  Some (with_user (User_new "ada@example.com" None (Some "demo") "password")
                          (empty_store 0)))) by reflexivity.
  assert (H2 : authenticate (ViaLogin (mkLoginRequest "bob@example.com" "one"))
                 (Some (with_user (User_new "ada@example.com" None (Some "demo") "password")
                          (empty_store 0)))
               = (Return (mkAuthResponse (Oid.str 1) (mkUserInfo "bob@example.com" None)),
                  Some (with_user (User_new "bob@example.com" None (Some "demo") "password")
                          (with_user (User_new "ada@example.com" None (Some "demo") "password")
                             (empty_store 0))))) by reflexivity.
  split; [exact H1|]. split; [exact H2|].
  apply (different_emails_different_tokens _ _ _ _ _ _ _ Hr H1 H2).
  cbn. discriminate.
Defined.

End Tokens.

(* ================================================================== *)
(** ** Beyond the claims: a request that fails half-way *)
(* ================================================================== *)

Section Failure.
Local Open Scope N_scope.

(** X12.  A job is marked [ready] only after its ten leads are written.
    When [request_leads] raises on a well-kept store, either nothing
    was written, or the job it created is still [processing] with count
    0 for [get_lead_status], and fewer than ten leads were written. *)
Theorem failed_request_leaves_job_processing payload s e s' :
  store_ok s = true ->
  LeadRequest_valid payload = true ->
  request_leads payload (Some s) = (Raise e, Some s') ->
  s' = s \/
  (get_lead_status (Oid.str (next_oid s)) (Some s')
     = (Return (mkStatusResponse "processing" 0), Some s') /\
   exists extra, lead s' = (lead s ++ extra)%list /\
     Forall (fun d => job_id (snd d) = Oid.str (next_oid s)) extra).
Proof.
  intros Hok Hvalid Hrun.
  pose proof (store_ok_parts s Hok) as (_ & _ & Hj & _ & _).
  destruct (request_leads_shape payload s Hok Hvalid) as (res & s1 & Hrun1 & Hcase).
  rewrite Hrun in Hrun1. injection Hrun1 as <- <-.
  destruct Hcase as [[-> _]|(j & extra & n & -> & Hlt & _ & _ & Hall & Hres)]; [left; reflexivity|].
  right. destruct Hres as [(Hr & _)|(_ & ->)]; [discriminate|]. split.
  - rewrite (get_lead_status_run _ _ (next_oid s) (next_oid s, new_job payload)).
    + reflexivity.
    + apply OidFacts.ObjectId_str. exact Hlt.
    + unfold with_job. store_simpl. apply find_fresh. exact Hj.
  - exists extra. split; [reflexivity|].
    eapply Forall_impl; [|exact Hall]. intros d [Hd _]. exact Hd.
Qed.

Lemma failed_request_leaves_job_processing_witness :
  exists e s',
    store_ok (empty_store (Oid.limit - 3)) = true /\
    request_leads demo_request (Some (empty_store (Oid.limit - 3))) = (Raise e, Some s') /\
    get_lead_status (Oid.str (Oid.limit - 3)) (Some s')
      = (Return (mkStatusResponse "processing" 0), Some s') /\
    List.length (lead s') = 2%nat.
Proof.
  pose (s := empty_store (Oid.limit - 3)).
  assert (Hok : store_ok s = true) by (vm_compute; reflexivity).
  assert (Hrun : request_leads demo_request (Some s)
                 = (Raise (Exception "Store write failed"),
                    Some (with_job (new_job demo_request)
                            (number_from (Oid.limit - 2)
                               (map (placeholder demo_request (Oid.str (Oid.limit - 3)) "SaaS")
                                  [1; 2]%nat))
                            Oid.limit s)))
    by (vm_compute; reflexivity).
  eexists _, _. split; [exact Hok|]. split; [exact Hrun|].
  destruct (failed_request_leaves_job_processing demo_request s _ _ Hok eq_refl Hrun)
    as [Habs|[Hst _]].
  - exfalso. vm_compute in Habs. discriminate.
  - split; [exact Hst | reflexivity].
Defined.

End Failure.

(* ================================================================== *)
(** ** Beyond the claims: the diagnostic route *)
(* ================================================================== *)

Section DiagnosticFacts.

Variable getenv : string -> option string.
Variable db_name : store -> option string.
Variable list_collection_names : store -> list string + string.

(** X13.  The diagnostic never lists more than ten collections: it
    shows the first ten names the driver returned, and none when the
    store is not configured or the listing raised. *)
Theorem diagnostic_lists_at_most_ten db :
  (List.length (diag_collections (test_database getenv db_name list_collection_names db)) <= 10)%nat /\
  diag_collections (test_database getenv db_name list_collection_names db) =
    match db with
    | Some d =>
        match list_collection_names d with
        | inl names => firstn 10 names
        | inr _ => []
        end
    | None => []
    end.
Proof.
  destruct db as [d|]; diag_simpl.
  - destruct (list_collection_names d) as [names|e]; diag_simpl.
    + split; [apply firstn_le_length | reflexivity].
    + split; [cbn; lia | reflexivity].
  - split; [cbn; lia | reflexivity].
Qed.

(** X14.  The two configuration flags of the diagnostic depend on the
    environment only: each is [Set] exactly when its variable is set to
    a non-empty value and [Not Set] otherwise, whatever the store handle
    and the driver do; the placeholder written while the store is
    probed, and the store's own name, never reach the response. *)
Theorem diagnostic_flags_follow_environment db :
  let flag v := Some (if truthy (getenv v) then "✅ Set" else "❌ Not Set") in
  diag_database_url (test_database getenv db_name list_collection_names db) = flag "DATABASE_URL" /\
  diag_database_name (test_database getenv db_name list_collection_names db) = flag "DATABASE_NAME" /\
  (diag_database_url (test_database getenv db_name list_collection_names db) = Some "✅ Set" <->
     exists c rest, getenv "DATABASE_URL" = Some (String c rest)) /\
  (diag_database_name (test_database getenv db_name list_collection_names db) = Some "✅ Set" <->
     exists c rest, getenv "DATABASE_NAME" = Some (String c rest)).
Proof.
  cbv zeta.
  assert (Hu : diag_database_url (test_database getenv db_name list_collection_names db)
               = Some (if truthy (getenv "DATABASE_URL") then "✅ Set" else "❌ Not Set")).
  { destruct db as [d|]; diag_simpl;
      [destruct (list_collection_names d)|]; reflexivity. }
  assert (Hn : diag_database_name (test_database getenv db_name list_collection_names db)
               = Some (if truthy (getenv "DATABASE_NAME") then "✅ Set" else "❌ Not Set")).
  { destruct db as [d|]; diag_simpl;
      [destruct (list_collection_names d)|]; reflexivity. }
  split; [exact Hu|]. split; [exact Hn|]. rewrite Hu, Hn.
  split; split.
  - destruct (getenv "DATABASE_URL") as [[|c rest]|]; cbn; intros H;
      [discriminate | eauto | discriminate].
  - intros (c & rest & ->). reflexivity.
  - destruct (getenv "DATABASE_NAME") as [[|c rest]|]; cbn; intros H;
      [discriminate | eauto | discriminate].
  - intros (c & rest & ->). reflexivity.
Qed.

(** X15.  The diagnostic reports [Connected] exactly when the store
    handle is configured, always reports the backend as running, and
    never sends the initial [Not Available] text: every path replaces
    it. *)
Theorem diagnostic_connection_status db :
  (diag_connection_status (test_database getenv db_name list_collection_names db) = "Connected" <-> db <> None) /\
  (diag_connection_status (test_database getenv db_name list_collection_names db) = "Not Connected" <-> db = None) /\
  diag_backend (test_database getenv db_name list_collection_names db) = "✅ Running" /\
  diag_database (test_database getenv db_name list_collection_names db) <> "❌ Not Available".
Proof.
  destruct db as [d|]; diag_simpl.
  - destruct (list_collection_names d) as [names|e]; diag_simpl;
      repeat split; try discriminate; try reflexivity; intros; discriminate.
  - repeat split; try discriminate; try reflexivity; intros; congruence.
Qed.

End DiagnosticFacts.

(* ================================================================== *)
(** ** Beyond the claims: from request to results *)
(* ================================================================== *)

Section RoundTrip.
Local Open Scope N_scope.

(** X16.  What [request_leads] wrote is what [get_lead_results] gives
    back: on a well-kept store with room for eleven identifiers, the
    results for the returned [job_id] are exactly ten records, among
    them, for every [i] from 1 to 10, the placeholder lead number [i]
    built from the request and its first keyword. *)
Theorem results_return_the_generated_leads s payload k :
  store_ok s = true ->
  next_oid s + 11 <= Oid.limit ->
  LeadRequest_valid payload = true ->
  hd_error (req_industry_keywords payload) = Some k ->
  exists r s' leads,
    request_leads payload (Some s) = (Return r, Some s') /\
    get_lead_results (resp_job_id r) (Some s') = (Return leads, Some s') /\
    List.length leads = 10%nat /\
    forall i, (1 <= i <= 10)%nat ->
      In (placeholder payload (resp_job_id r) k i) (map out_lead leads).
Proof.
  intros Hok Hroom Hvalid Hk.
  destruct (req_industry_keywords payload) as [|k' ks] eqn:Hkw; [discriminate|].
  injection Hk as ->.
  pose proof (request_leads_run payload k ks Hkw s Hok Hroom) as Hrun.
  assert (Hparse : Oid.ObjectId (Oid.str (next_oid s)) = Some (next_oid s))
    by (apply OidFacts.ObjectId_str; lia).
  assert (Hof : leads_of (Oid.str (next_oid s)) (fulfilled payload k s)
                = number_from (N.succ (next_oid s))
                    (map (placeholder payload (Oid.str (next_oid s)) k) (seq 1 10))).
  { unfold leads_of, fulfilled. store_simpl. rewrite filter_app, leads_of_numbered.
    change (filter (fun d => by_job_id (Oid.str (next_oid s)) (snd d)) (lead s))
      with (leads_of (Oid.str (next_oid s)) s).
    rewrite (no_lead_of_fresh s (next_oid s) Hok) by lia. reflexivity. }
  eexists _, _, _. split; [exact Hrun|]. cbn [resp_job_id].
  split; [apply (get_lead_results_run _ _ _ Hparse)|].
  rewrite Hof. split; [reflexivity|].
  intros i Hi. rewrite map_map. cbn [out_lead].
  rewrite firstn_all2 by (cbn; lia).
  change (map (fun x : Oid.oid * Lead => snd x)) with (@map (Oid.oid * Lead) Lead snd).
  rewrite number_from_snd. apply in_map. apply in_seq. lia.
Qed.

Lemma results_return_the_generated_leads_witness :
  store_ok (empty_store 0) = true /\
  LeadRequest_valid demo_request = true /\
  exists r s' leads,
    request_leads demo_request (Some (empty_store 0)) = (Return r, Some s') /\
    get_lead_results (resp_job_id r) (Some s') = (Return leads, Some s') /\
    In (placeholder demo_request (resp_job_id r) "SaaS" 1) (map out_lead leads).
Proof.
  split; [reflexivity|]. split; [reflexivity|].
  destruct (results_return_the_generated_leads (empty_store 0) demo_request "SaaS"
              eq_refl demo_room eq_refl eq_refl)
    as (r & s' & leads & Hrun & Hres & _ & Hall).
  exists r, s', leads. split; [exact Hrun|]. split; [exact Hres|].
  apply Hall. lia.
Defined.

End RoundTrip.
